(** * Open Surge Engine: the obstacle map of the physics system

    A shallow embedding of [src/physics/obstaclemap.c]: the container of
    obstacle references, its three queries and the tie-break between two
    overlapping obstacles.  Two smaller state machines of the engine
    follow it: the mobile menu of [src/scenes/mobilemenu.c] and the time
    manager of [src/core/timer.c].

    Conventions:
    - a C [int] is a [Z]; the file only compares integers, it never does
      arithmetic on them, so no wrap-around can occur;
    - a [const obstacle_t*] that may be [NULL] is an [option obstacle_t],
      [None] standing for [NULL]; the pointers stored in the map are
      dereferenced unconditionally by every query, so they are non-[NULL]
      and the map stores plain [obstacle_t];
    - the obstacle itself ([obstacle.c]) is an opaque collaborator: its four
      read-only accessors are the fields of the class [ObstacleAPI]. *)

From Stdlib Require Import ZArith QArith List Bool Lia Permutation.
Import ListNotations.
Local Open Scope Z_scope.

(** ** Enumerations named by the source *)

(** Modelled from the spec: the enum [movmode_t] of [physicsactor.h], which
    is not part of the sources at hand.  The spec gives it exactly four
    variants; the constructor names are the ones [obstaclemap.c] switches on. *)
Inductive movmode_t : Type :=
  | MM_FLOOR
  | MM_RIGHTWALL
  | MM_CEILING
  | MM_LEFTWALL.

(** Modelled from the spec: the enum [grounddir_t] of [obstacle.h] (absent),
    four variants; the names are the ones passed to
    [obstacle_ground_position] in [obstaclemap.c]. *)
Inductive grounddir_t : Type :=
  | GD_DOWN
  | GD_LEFT
  | GD_UP
  | GD_RIGHT.

(** ** The obstacle contract

    [obstacle.h] is not part of the sources at hand; [obstaclemap.c] uses it
    only through the declarations below, which are therefore taken as
    parameters.  [obstaclelayer_t] is an enum of which the file knows one
    value, [OL_DEFAULT], and on which it only uses [!=]. *)
Class ObstacleAPI : Type := {
  obstaclelayer_t : Type;
  OL_DEFAULT : obstaclelayer_t;
  obstaclelayer_eq_dec : forall l1 l2 : obstaclelayer_t, {l1 = l2} + {l1 <> l2};
  obstacle_t : Type;
  obstacle_is_solid : obstacle_t -> bool;
  obstacle_get_layer : obstacle_t -> obstaclelayer_t;
  obstacle_got_collision : obstacle_t -> Z -> Z -> Z -> Z -> bool;
  obstacle_ground_position : obstacle_t -> Z -> Z -> grounddir_t -> Z
}.

(** ** Dynamic arrays ([util/darray.h], not part of the sources at hand) *)

(** Modelled from the spec: the macro [DARRAY(type, arr)], which declares
    the storage of a dynamic array.  The spec describes it as an
    insertion-ordered, dynamically resizable sequence. *)
Definition darray (A : Type) : Type := list A.

(** Modelled from the spec: the macro [darray_init_ex(arr, capacity)]; a
    map is created empty, the capacity is a storage hint. *)
Definition darray_init_ex {A : Type} (capacity : nat) : darray A := [].

(** Modelled from the spec: the macro [darray_length(arr)], the number of
    elements stored. *)
Definition darray_length {A : Type} (arr : darray A) : nat := List.length arr.

(** Modelled from the spec: the macro [darray_push(arr, element)]; it
    appends at the end and the length grows by one. *)
Definition darray_push {A : Type} (arr : darray A) (element : A) : darray A :=
  arr ++ [element].

(** Modelled from the spec: the macro [darray_clear(arr)]; it removes every
    element and the length becomes zero. *)
Definition darray_clear {A : Type} (arr : darray A) : darray A := [].

Section ObstacleMap.
Context {api : ObstacleAPI}.

(** C's [l1 != l2] on layers. *)
Definition layer_neqb (l1 l2 : obstaclelayer_t) : bool :=
  if obstaclelayer_eq_dec l1 l2 then false else true.

(** [struct obstaclemap_t { DARRAY(const obstacle_t*, obstacle); }] *)
Record obstaclemap_t : Type := mk_obstaclemap {
  obstacle : darray obstacle_t
}.

(** [obstaclemap_create] *)
Definition obstaclemap_create : obstaclemap_t :=
  mk_obstaclemap (darray_init_ex 32).

(** [obstaclemap_add_obstacle] *)
Definition obstaclemap_add_obstacle (obstaclemap : obstaclemap_t)
    (o : obstacle_t) : obstaclemap_t :=
  mk_obstaclemap (darray_push (obstacle obstaclemap) o).

(** [obstaclemap_clear] *)
Definition obstaclemap_clear (obstaclemap : obstaclemap_t) : obstaclemap_t :=
  mk_obstaclemap (darray_clear (obstacle obstaclemap)).

(** [ignore_obstacle]: whether the obstacle is skipped under a layer filter. *)
Definition ignore_obstacle (o : obstacle_t) (layer_filter : obstaclelayer_t) : bool :=
  let obstacle_layer := obstacle_get_layer o in
  layer_neqb layer_filter OL_DEFAULT
  && layer_neqb obstacle_layer OL_DEFAULT
  && layer_neqb obstacle_layer layer_filter.

(** [pick_best_obstacle]: the tie-break between two overlapping obstacles.
    The branches are in the order of the C function.  After the two
    [NULL] tests and the two mixed-solidity tests, the one-way [switch]
    returns in each of the four modes, so the second [switch] is reached
    exactly when both obstacles are solid; the trailing [return a] after
    it is reached by no value of [movmode_t]. *)
Definition pick_best_obstacle (a b : option obstacle_t)
    (x1 y1 x2 y2 : Z) (mm : movmode_t) : option obstacle_t :=
  match a, b with
  | None, _ => b
  | Some _, None => a
  | Some oa, Some ob =>
    if negb (obstacle_is_solid oa) && obstacle_is_solid ob then b
    else if negb (obstacle_is_solid ob) && obstacle_is_solid oa then a
    else if negb (obstacle_is_solid oa) && negb (obstacle_is_solid ob) then
      (* one-way platforms only: get the shortest obstacle *)
      match mm with
      | MM_FLOOR =>
          let ha := obstacle_ground_position oa x2 y2 GD_DOWN in
          let hb := obstacle_ground_position ob x2 y2 GD_DOWN in
          if ha >=? hb then a else b
      | MM_RIGHTWALL =>
          let ha := obstacle_ground_position oa x2 y2 GD_RIGHT in
          let hb := obstacle_ground_position ob x2 y2 GD_RIGHT in
          if ha >=? hb then a else b
      | MM_CEILING =>
          let ha := obstacle_ground_position oa x2 y1 GD_UP in
          let hb := obstacle_ground_position ob x2 y1 GD_UP in
          if ha <? hb then a else b
      | MM_LEFTWALL =>
          let ha := obstacle_ground_position oa x1 y2 GD_LEFT in
          let hb := obstacle_ground_position ob x1 y2 GD_LEFT in
          if ha <? hb then a else b
      end
    else
      (* get the tallest obstacle *)
      match mm with
      | MM_FLOOR =>
          let x := x2 in
          let y := y2 in
          let ha := obstacle_ground_position oa x y GD_DOWN in
          let hb := obstacle_ground_position ob x y GD_DOWN in
          if ha <? hb then a else b
      | MM_LEFTWALL =>
          let x := x1 in
          let y := y2 in
          let ha := obstacle_ground_position oa x y GD_LEFT in
          let hb := obstacle_ground_position ob x y GD_LEFT in
          if ha >=? hb then a else b
      | MM_CEILING =>
          let x := x2 in
          let y := y1 in
          let ha := obstacle_ground_position oa x y GD_UP in
          let hb := obstacle_ground_position ob x y GD_UP in
          if ha >=? hb then a else b
      | MM_RIGHTWALL =>
          let x := x2 in
          let y := y2 in
          let ha := obstacle_ground_position oa x y GD_RIGHT in
          let hb := obstacle_ground_position ob x y GD_RIGHT in
          if ha <? hb then a else b
      end
  end.

(** The test guarding the body of the loop of
    [obstaclemap_get_best_obstacle_at]; the two existence queries apply it
    to the degenerate rectangle [(x,y,x,y)]. *)
Definition touches (layer_filter : obstaclelayer_t) (x1 y1 x2 y2 : Z)
    (o : obstacle_t) : bool :=
  negb (ignore_obstacle o layer_filter) && obstacle_got_collision o x1 y1 x2 y2.

(** One iteration of the loop of [obstaclemap_get_best_obstacle_at]:
    the visited obstacle is the FIRST argument of the tie-break, the
    candidate kept so far the second. *)
Definition best_step (x1 y1 x2 y2 : Z) (mm : movmode_t)
    (layer_filter : obstaclelayer_t)
    (best : option obstacle_t) (o : obstacle_t) : option obstacle_t :=
  if touches layer_filter x1 y1 x2 y2 o
  then pick_best_obstacle (Some o) best x1 y1 x2 y2 mm
  else best.

(** [obstaclemap_get_best_obstacle_at]: [best] starts as [NULL] and the
    array is scanned from index 0 upwards. *)
Definition obstaclemap_get_best_obstacle_at (obstaclemap : obstaclemap_t)
    (x1 y1 x2 y2 : Z) (mm : movmode_t) (layer_filter : obstaclelayer_t)
    : option obstacle_t :=
  fold_left (best_step x1 y1 x2 y2 mm layer_filter) (obstacle obstaclemap) None.

(** The loop of [obstaclemap_obstacle_exists], returning [true] at the
    first hit. *)
Fixpoint obstacle_exists_from (arr : list obstacle_t) (x y : Z)
    (layer_filter : obstaclelayer_t) : bool :=
  match arr with
  | [] => false
  | o :: rest =>
      if negb (ignore_obstacle o layer_filter)
         && obstacle_got_collision o x y x y
      then true
      else obstacle_exists_from rest x y layer_filter
  end.

(** [obstaclemap_obstacle_exists] *)
Definition obstaclemap_obstacle_exists (obstaclemap : obstaclemap_t)
    (x y : Z) (layer_filter : obstaclelayer_t) : bool :=
  obstacle_exists_from (obstacle obstaclemap) x y layer_filter.

(** The loop of [obstaclemap_solid_exists]. *)
Fixpoint solid_exists_from (arr : list obstacle_t) (x y : Z)
    (layer_filter : obstaclelayer_t) : bool :=
  match arr with
  | [] => false
  | o :: rest =>
      if negb (ignore_obstacle o layer_filter)
         && obstacle_got_collision o x y x y
         && obstacle_is_solid o
      then true
      else solid_exists_from rest x y layer_filter
  end.

(** [obstaclemap_solid_exists] *)
Definition obstaclemap_solid_exists (obstaclemap : obstaclemap_t)
    (x y : Z) (layer_filter : obstaclelayer_t) : bool :=
  solid_exists_from (obstacle obstaclemap) x y layer_filter.

End ObstacleMap.


(** ** A concrete obstacle: the axis-aligned box

    [obstacle.c] is not part of the sources at hand.  Boxes instantiate the
    obstacle contract so that the general theorems can be run on concrete
    scenes. *)
Module Box.

(** Modelled from the spec: the enum [obstaclelayer_t] of [obstacle.h]
    (absent): DEFAULT plus two alternate layers. *)
Inductive layer : Type := L_DEFAULT | L_GREEN | L_YELLOW.

Definition layer_eq_dec (l1 l2 : layer) : {l1 = l2} + {l1 <> l2}.
Proof. decide equality. Defined.

(** Modelled from the spec: the struct [obstacle_t] of [obstacle.c]
    (absent), reduced to what the spec lists: a solidity flag, a layer tag
    and an axis-aligned region. *)
Record box : Type := mk_box {
  solid : bool;
  on_layer : layer;
  x_lo : Z;      (* first column covered *)
  y_lo : Z;      (* first row covered *)
  x_hi : Z;      (* last column covered *)
  y_hi : Z       (* last row covered *)
}.

(** Modelled from the spec: [obstacle_got_collision] of [obstacle.c]
    (absent), the overlap test between the obstacle's region and the probe
    rectangle. *)
Definition got_collision (o : box) (x1 y1 x2 y2 : Z) : bool :=
  (x_lo o <=? x2) && (x1 <=? x_hi o) && (y_lo o <=? y2) && (y1 <=? y_hi o).

(** Modelled from the spec: [obstacle_ground_position] of [obstacle.c]
    (absent), the coordinate of the obstacle's surface along the axis of
    the direction: looking DOWN one meets the top row of the box, looking
    RIGHT its first column, and so on. *)
Definition ground_position (o : box) (x y : Z) (d : grounddir_t) : Z :=
  match d with
  | GD_DOWN => y_lo o
  | GD_UP => y_hi o
  | GD_RIGHT => x_lo o
  | GD_LEFT => x_hi o
  end.

#[global] Instance api : ObstacleAPI := {
  obstaclelayer_t := layer;
  OL_DEFAULT := L_DEFAULT;
  obstaclelayer_eq_dec := layer_eq_dec;
  obstacle_t := box;
  obstacle_is_solid := solid;
  obstacle_get_layer := on_layer;
  obstacle_got_collision := got_collision;
  obstacle_ground_position := ground_position
}.

(** The scene of the spec's scenario: a solid block covering rows 100..120
    and a one-way platform covering rows 90..110, both around column 50 and
    on the default layer. *)
Definition block_A : obstacle_t := mk_box true L_DEFAULT 40 100 60 120.
Definition platform_B : obstacle_t := mk_box false L_DEFAULT 40 90 60 110.

(** Two further one-way platforms: one with the same top row as
    [platform_B] but shifted to the right, one on the green layer. *)
Definition platform_C : obstacle_t := mk_box false L_DEFAULT 45 90 70 105.
Definition platform_G : obstacle_t := mk_box false L_GREEN 40 95 60 115.

(** A second solid block, lower than [block_A]. *)
Definition block_D : obstacle_t := mk_box true L_DEFAULT 40 110 60 130.

Definition scene (l : list obstacle_t) : obstaclemap_t :=
  fold_left obstaclemap_add_obstacle l obstaclemap_create.

End Box.


(** ** What the tie-break compares

    Both switches of [pick_best_obstacle] read, in a given movement mode,
    the same ground position of each obstacle: same point of the probe, same
    direction.  The following definitions name that value and the sense of
    the comparison, so that the result of a whole scan can be described. *)
Section TieBreakOrder.
Context {api : ObstacleAPI}.

(** The value [ha] (or [hb]) computed for obstacle [o] in mode [mm]. *)
Definition sensed_height (mm : movmode_t) (x1 y1 x2 y2 : Z) (o : obstacle_t) : Z :=
  match mm with
  | MM_FLOOR => obstacle_ground_position o x2 y2 GD_DOWN
  | MM_RIGHTWALL => obstacle_ground_position o x2 y2 GD_RIGHT
  | MM_CEILING => obstacle_ground_position o x2 y1 GD_UP
  | MM_LEFTWALL => obstacle_ground_position o x1 y2 GD_LEFT
  end.

(** Whether, between two obstacles of the same solidity, the test is the
    strict [ha < hb ? a : b] (true) or [ha >= hb ? a : b] (false). *)
Definition lesser_wins (mm : movmode_t) (is_solid : bool) : bool :=
  match mm, is_solid with
  | MM_FLOOR, true | MM_RIGHTWALL, true => true
  | MM_CEILING, true | MM_LEFTWALL, true => false
  | MM_FLOOR, false | MM_RIGHTWALL, false => false
  | MM_CEILING, false | MM_LEFTWALL, false => true
  end.

(** [r] is at least as good a pick as [o]: either [r] is solid and [o] is
    not, or they have the same solidity and the height of [r] is on the
    winning side of (or equal to) the height of [o]. *)
Definition at_least_as_good (mm : movmode_t) (x1 y1 x2 y2 : Z)
    (r o : obstacle_t) : Prop :=
  (obstacle_is_solid r = true /\ obstacle_is_solid o = false) \/
  (obstacle_is_solid r = obstacle_is_solid o /\
   if lesser_wins mm (obstacle_is_solid r)
   then sensed_height mm x1 y1 x2 y2 r <= sensed_height mm x1 y1 x2 y2 o
   else sensed_height mm x1 y1 x2 y2 o <= sensed_height mm x1 y1 x2 y2 r).

End TieBreakOrder.


(** * The mobile menu ([src/scenes/mobilemenu.c])

    The scene is a small state machine: four on-screen buttons, each
    UNPRESSED, PRESSED or TRIGGERED, and a menu state.  The model keeps
    the static variables of the file as one record and passes it through
    the functions.  What the file reads from other subsystems on each frame
    (the mouse/touch buttons, the cursor position, the BACK key and the frame
    delta) is the record [frame_t].  The C [float]s are kept abstract:
    the type, its constants and its operations are fields of [MenuEnv],
    and so is the float comparison at the heart of [button_at]. *)
Module MobileMenu.

(** The values [0 .. BUTTON_COUNT-1] of [enum mobilemenu_button_t], that
    is, the valid indices of the array [button]. *)
Inductive button_id : Type :=
  | BUTTON_BACK
  | BUTTON_SCREENSHOT
  | BUTTON_DEBUG
  | BUTTON_INFO.

(** [enum mobilemenu_button_t]: an index, or [BUTTON_NONE = -1]. *)
Definition mobilemenu_button_t : Type := option button_id.
Definition BUTTON_NONE : mobilemenu_button_t := None.

Definition button_id_eq_dec (b1 b2 : button_id) : {b1 = b2} + {b1 <> b2}.
Proof. decide equality. Defined.

(** C's [b != p] on [mobilemenu_button_t]. *)
Definition button_neqb (b p : mobilemenu_button_t) : bool :=
  match b, p with
  | None, None => false
  | Some b', Some p' => if button_id_eq_dec b' p' then false else true
  | _, _ => true
  end.

(** The integer value of an index in [enum mobilemenu_button_t]. *)
Definition button_index (b : button_id) : Z :=
  match b with
  | BUTTON_BACK => 0
  | BUTTON_SCREENSHOT => 1
  | BUTTON_DEBUG => 2
  | BUTTON_INFO => 3
  end.

(** The indices visited by [for(int i = 0; i < BUTTON_COUNT; i++)]. *)
Definition button_indices : list button_id :=
  [BUTTON_BACK; BUTTON_SCREENSHOT; BUTTON_DEBUG; BUTTON_INFO].

(** [enum mobilemenu_buttonstate_t] *)
Inductive mobilemenu_buttonstate_t : Type :=
  | UNPRESSED
  | PRESSED
  | TRIGGERED.

(** [ANIMATION_NUMBER[]] *)
Definition ANIMATION_NUMBER (s : mobilemenu_buttonstate_t) : Z :=
  match s with
  | UNPRESSED => 0
  | PRESSED => 1
  | TRIGGERED => 0
  end.

(** [enum mobilemenustate_t] *)
Inductive mobilemenustate_t : Type :=
  | APPEARING
  | WAITING
  | DISAPPEARING
  | TRIGGERED_BACK
  | TRIGGERED_SCREENSHOT
  | TRIGGERED_DEBUG
  | TRIGGERED_INFO.

(** [TRIGGERED_STATE[]] *)
Definition TRIGGERED_STATE (b : button_id) : mobilemenustate_t :=
  match b with
  | BUTTON_BACK => TRIGGERED_BACK
  | BUTTON_SCREENSHOT => TRIGGERED_SCREENSHOT
  | BUTTON_DEBUG => TRIGGERED_DEBUG
  | BUTTON_INFO => TRIGGERED_INFO
  end.

(** What the scene takes from its surroundings.  [inside_button i p] is the
    test [0.0f <= d.x && d.x < w && 0.0f <= d.y && d.y < h] of [button_at]
    for button [i] and position [p]; the positions and images of the
    buttons are set by [mobilemenu_init] and not changed afterwards.
    [f_min] and [f_max] are the macros [min] and [max] of [util.h]. *)
Class MenuEnv : Type := {
  v2d_t : Type;
  inside_button : button_id -> v2d_t -> bool;
  float : Type;
  f_zero : float;                      (* 0.0f *)
  f_one : float;                       (* 1.0f *)
  FADE_TIME : float;                   (* 0.25f *)
  f_add : float -> float -> float;
  f_sub : float -> float -> float;
  f_div : float -> float -> float;
  f_min : float -> float -> float;
  f_max : float -> float -> float;
  f_eqb : float -> float -> bool       (* == *)
}.

Section Scene.
Context {env : MenuEnv}.

(** One entry of the array [button]: the state, and what the scene writes
    to the entry's actor (its alpha and the number of its animation). *)
Record button_t : Type := mk_button {
  actor_alpha : float;
  actor_animation : Z;
  button_state : mobilemenu_buttonstate_t
}.

(** The static variables of the file: the array [button], the menu
    [state], the two static locals of [handle_touch_input], and the number
    of calls made to [scenestack_pop]. *)
Record scene_t : Type := mk_scene {
  button : button_id -> button_t;
  state : mobilemenustate_t;
  touch_start : v2d_t;
  touch_end : v2d_t;
  scenestack_pops : nat
}.

(** What one frame reads from the input system and the timer. *)
Record frame_t : Type := mk_frame {
  fire1_up : bool;          (* input_button_up(mouse_input, IB_FIRE1) *)
  fire1_pressed : bool;     (* input_button_pressed(mouse_input, IB_FIRE1) *)
  fire1_down : bool;        (* input_button_down(mouse_input, IB_FIRE1) *)
  mouse_position : v2d_t;   (* read_mouse_position() *)
  back_pressed : bool;      (* input_button_pressed(input, BACK_BUTTON) *)
  delta : float             (* timer_get_delta() *)
}.

(** Assignments to one entry of [button]. *)
Definition set_button (sc : scene_t) (b : button_id) (e : button_t) : scene_t :=
  mk_scene (fun i => if button_id_eq_dec i b then e else button sc i)
           (state sc) (touch_start sc) (touch_end sc) (scenestack_pops sc).

Definition set_button_state (sc : scene_t) (b : button_id)
    (s : mobilemenu_buttonstate_t) : scene_t :=
  set_button sc b
    (mk_button (actor_alpha (button sc b)) (actor_animation (button sc b)) s).

Definition set_actor_animation (sc : scene_t) (b : button_id) (n : Z) : scene_t :=
  set_button sc b
    (mk_button (actor_alpha (button sc b)) n (button_state (button sc b))).

Definition set_actor_alpha (sc : scene_t) (b : button_id) (alpha : float) : scene_t :=
  set_button sc b
    (mk_button alpha (actor_animation (button sc b)) (button_state (button sc b))).

Definition set_state (sc : scene_t) (s : mobilemenustate_t) : scene_t :=
  mk_scene (button sc) s (touch_start sc) (touch_end sc) (scenestack_pops sc).

(** The loop of [button_at] over the indices still to visit. *)
Fixpoint button_at_from (indices : list button_id) (position : v2d_t)
    : mobilemenu_button_t :=
  match indices with
  | [] => BUTTON_NONE
  | i :: rest =>
      if inside_button i position then Some i
      else button_at_from rest position
  end.

(** [button_at]: the button that is displayed at a point of the screen. *)
Definition button_at (position : v2d_t) : mobilemenu_button_t :=
  button_at_from button_indices position.

(** [update_button] *)
Definition update_button (sc : scene_t) (b : button_id) : scene_t :=
  let sc1 :=
    match button_state (button sc b) with
    | TRIGGERED => set_state (set_button_state sc b UNPRESSED) (TRIGGERED_STATE b)
    | _ => sc
    end in
  set_actor_animation sc1 b (ANIMATION_NUMBER (button_state (button sc1 b))).

(** [on_touch_start] *)
Definition on_touch_start (sc : scene_t) (touch_start : v2d_t) : scene_t :=
  match button_at touch_start with
  | None => sc
  | Some b => set_button_state sc b PRESSED
  end.

(** [on_touch_end] *)
Definition on_touch_end (sc : scene_t) (touch_start touch_end : v2d_t) : scene_t :=
  let b := button_at touch_start in
  let p := button_at touch_end in
  if negb (button_neqb b BUTTON_NONE) || button_neqb b p then sc
  else
    fold_left
      (fun acc i =>
         match button_state (button acc i) with
         | PRESSED => set_button_state acc i TRIGGERED
         | _ => set_button_state acc i UNPRESSED
         end)
      button_indices sc.

(** [on_touch_move] *)
Definition on_touch_move (sc : scene_t) (touch_start touch_current : v2d_t) : scene_t :=
  let b := button_at touch_start in
  let p := button_at touch_current in
  if negb (button_neqb b BUTTON_NONE) || negb (button_neqb b p) then sc
  else fold_left (fun acc i => set_button_state acc i UNPRESSED) button_indices sc.

(** [handle_touch_input] *)
Definition handle_touch_input (sc : scene_t) (f : frame_t) : scene_t :=
  if fire1_up f then
    let sc1 := mk_scene (button sc) (state sc) (touch_start sc)
                        (mouse_position f) (scenestack_pops sc) in
    on_touch_end sc1 (touch_start sc1) (touch_end sc1)
  else if fire1_pressed f then
    let sc1 := mk_scene (button sc) (state sc) (mouse_position f)
                        (touch_end sc) (scenestack_pops sc) in
    on_touch_start sc1 (touch_start sc1)
  else if fire1_down f then
    on_touch_move sc (touch_start sc) (mouse_position f)
  else sc.

(** [update_appearing]: fade in buttons. *)
Definition update_appearing (sc : scene_t) (f : frame_t) : scene_t :=
  let dt := delta f in
  let alpha := actor_alpha (button sc BUTTON_BACK) in
  let alpha := f_min f_one (f_add alpha (f_div dt FADE_TIME)) in
  let sc1 := fold_left (fun acc i => set_actor_alpha acc i alpha) button_indices sc in
  if f_eqb alpha f_one then set_state sc1 WAITING else sc1.

(** [update_disappearing]: fade out buttons. *)
Definition update_disappearing (sc : scene_t) (f : frame_t) : scene_t :=
  let dt := delta f in
  let alpha := actor_alpha (button sc BUTTON_BACK) in
  let alpha := f_max f_zero (f_sub alpha (f_div dt FADE_TIME)) in
  let sc1 := fold_left (fun acc i => set_actor_alpha acc i alpha) button_indices sc in
  if f_eqb alpha f_zero
  then mk_scene (button sc1) (state sc1) (touch_start sc1) (touch_end sc1)
                (S (scenestack_pops sc1))
  else sc1.

(** [update_waiting]: detect if any button is pressed. *)
Definition update_waiting (sc : scene_t) (f : frame_t) : scene_t :=
  let sc1 := handle_touch_input sc f in
  let sc2 := fold_left update_button button_indices sc1 in
  if back_pressed f then set_state sc2 (TRIGGERED_STATE BUTTON_BACK) else sc2.

(** [update_triggered_back] and its three siblings. *)
Definition update_triggered_back (sc : scene_t) : scene_t := set_state sc DISAPPEARING.
Definition update_triggered_screenshot (sc : scene_t) : scene_t := set_state sc WAITING.
Definition update_triggered_debug (sc : scene_t) : scene_t := set_state sc DISAPPEARING.
Definition update_triggered_info (sc : scene_t) : scene_t := set_state sc WAITING.

(** [mobilemenu_update]: the call [update[state]()] through the table of
    function pointers. *)
Definition mobilemenu_update (sc : scene_t) (f : frame_t) : scene_t :=
  match state sc with
  | APPEARING => update_appearing sc f
  | WAITING => update_waiting sc f
  | DISAPPEARING => update_disappearing sc f
  | TRIGGERED_BACK => update_triggered_back sc
  | TRIGGERED_SCREENSHOT => update_triggered_screenshot sc
  | TRIGGERED_DEBUG => update_triggered_debug sc
  | TRIGGERED_INFO => update_triggered_info sc
  end.

(** A frame in which the finger rests on button [b]: no release, no new
    press, the cursor over [b], the BACK key not pressed. *)
Definition rests_on (b : button_id) (f : frame_t) : Prop :=
  fire1_up f = false /\ fire1_pressed f = false /\
  button_at (mouse_position f) = Some b /\ back_pressed f = false.

(** A frame in which the finger goes down on button [b]. *)
Definition presses (b : button_id) (f : frame_t) : Prop :=
  fire1_up f = false /\ fire1_pressed f = true /\
  button_at (mouse_position f) = Some b /\ back_pressed f = false.

(** A frame in which the finger goes up over button [b]. *)
Definition releases_over (b : button_id) (f : frame_t) : Prop :=
  fire1_up f = true /\ button_at (mouse_position f) = Some b /\
  back_pressed f = false.

(** The menu run over the frames of a list, oldest first. *)
Definition run (sc : scene_t) (frames : list frame_t) : scene_t :=
  fold_left mobilemenu_update frames sc.

End Scene.

(** A concrete environment, used to run the scene: positions are pairs of
    integers, the four buttons are 32x32 squares laid out in a row from
    the top-left corner of the screen (the layout of [mobilemenu_init] on
    a wide screen), and rationals stand for the floats. *)
Definition button_column (b : button_id) : Z :=
  match b with
  | BUTTON_BACK => 0
  | BUTTON_SCREENSHOT => 32
  | BUTTON_DEBUG => 64
  | BUTTON_INFO => 96
  end.

Definition row_inside (b : button_id) (p : Z * Z) : bool :=
  (button_column b <=? fst p) && (fst p <? button_column b + 32)
  && (0 <=? snd p) && (snd p <? 32).

#[global] Instance row_env : MenuEnv := {
  v2d_t := Z * Z;
  inside_button := row_inside;
  float := Q;
  f_zero := 0%Q;
  f_one := 1%Q;
  FADE_TIME := (1 # 4)%Q;
  f_add := Qplus;
  f_sub := Qminus;
  f_div := Qdiv;
  f_min := fun x y => if Qle_bool x y then x else y;
  f_max := fun x y => if Qle_bool x y then y else x;
  f_eqb := Qeq_bool
}.

(** The menu once it has faded in: every button idle, waiting for input. *)
Definition idle_scene : scene_t :=
  mk_scene (fun _ => mk_button 1%Q 0 UNPRESSED) WAITING (0, 0) (0, 0) 0.

(** Frames: the finger goes down at [p], stays down at [p], goes up at [p];
    the BACK key is not used. *)
Definition touch_down (p : Z * Z) : frame_t :=
  mk_frame false true true p false (1 # 60)%Q.
Definition touch_hold (p : Z * Z) : frame_t :=
  mk_frame false false true p false (1 # 60)%Q.
Definition touch_up (p : Z * Z) : frame_t :=
  mk_frame true false false p false (1 # 60)%Q.

(** A frame with the BACK key pressed and no touch. *)
Definition back_key : frame_t :=
  mk_frame false false false (0, 0) true (1 # 60)%Q.

(** The idle scene put in another menu state. *)
Definition scene_in (s : mobilemenustate_t) : scene_t :=
  mk_scene (button idle_scene) s (0, 0) (0, 0) 0.

End MobileMenu.


(** * The time manager ([src/core/timer.c])

    The static variables of the file are the fields of one record, passed
    through the functions.  Each call of [al_get_time()] is an argument of
    the function that makes it.  The C [double]s are kept abstract: the
    type, the constants of the file and the operations it uses are the
    fields of [DoubleAPI]; no property of floating-point arithmetic is
    built in. *)
Module Timer.

Class DoubleAPI : Type := {
  double : Type;
  d_zero : double;                       (* 0.0 *)
  d_one : double;                        (* 1.0 *)
  SMOOTH_FACTOR : double;                (* 0.95 *)
  MINIMUM_DELTA : double;                (* 1.0 / 60.0 *)
  MAXIMUM_DELTA : double;                (* 1.0 / 50.0 *)
  d_add : double -> double -> double;
  d_sub : double -> double -> double;
  d_mul : double -> double -> double;
  d_ltb : double -> double -> bool;      (* x < y; x > y is [d_ltb y x] *)
  d_neqb : double -> double -> bool      (* x != y *)
}.

Section TimeManager.
Context {dbl : DoubleAPI}.

(** The internal data of the file.  [frames] is an [int64_t] that is only
    ever incremented by one per frame; it is a [Z] here and the theorems
    that read it assume it is below [INT64_MAX]. *)
Record timer_t : Type := mk_timer {
  start_time : double;
  current_time : double;
  delta_time : double;
  smooth_delta_time : double;
  frames : Z;
  is_paused : bool;
  pause_duration : double;
  pause_start_time : double
}.

Definition INT64_MAX : Z := 2 ^ 63 - 1.

(** [timer_init]: [None] is the call of [fatal_error] made when Allegro is
    not initialized; [now] is the value read from [al_get_time()]. *)
Definition timer_init (al_is_system_installed : bool) (now : double)
    : option timer_t :=
  if negb al_is_system_installed then None
  else Some (mk_timer now d_zero d_zero d_zero 0 false d_zero d_zero).

(** [timer_update] *)
Definition timer_update (t : timer_t) (now : double) : timer_t :=
  if is_paused t then
    mk_timer (start_time t) (current_time t) d_zero d_zero (frames t)
             (is_paused t) (pause_duration t) (pause_start_time t)
  else
    let new_time := now in
    let delta_time := d_sub new_time (current_time t) in
    let delta_time :=
      if d_ltb delta_time MINIMUM_DELTA then MINIMUM_DELTA
      else if d_ltb MAXIMUM_DELTA delta_time then MAXIMUM_DELTA
      else delta_time in
    let smooth_delta_time :=
      if d_neqb (smooth_delta_time t) d_zero
      then d_add (d_mul SMOOTH_FACTOR delta_time)
                 (d_mul (d_sub d_one SMOOTH_FACTOR) (smooth_delta_time t))
      else MINIMUM_DELTA in
    mk_timer (start_time t) new_time delta_time smooth_delta_time
             (frames t + 1) (is_paused t) (pause_duration t)
             (pause_start_time t).

(** [timer_get_delta], [timer_get_smooth_delta], [timer_get_elapsed],
    [timer_get_frames] *)
Definition timer_get_delta (t : timer_t) : double := delta_time t.
Definition timer_get_smooth_delta (t : timer_t) : double := smooth_delta_time t.
Definition timer_get_elapsed (t : timer_t) : double := current_time t.
Definition timer_get_frames (t : timer_t) : Z := frames t.

(** [timer_get_now] *)
Definition timer_get_now (t : timer_t) (now : double) : double :=
  d_sub (d_sub now (start_time t)) (pause_duration t).

(** [timer_pause] *)
Definition timer_pause (t : timer_t) (now : double) : timer_t :=
  if is_paused t then t
  else mk_timer (start_time t) (current_time t) (delta_time t)
                (smooth_delta_time t) (frames t) true (pause_duration t) now.

(** [timer_resume] *)
Definition timer_resume (t : timer_t) (now : double) : timer_t :=
  if negb (is_paused t) then t
  else mk_timer (start_time t) (current_time t) (delta_time t)
                (smooth_delta_time t) (frames t) false
                (d_add (pause_duration t) (d_sub now (pause_start_time t)))
                (pause_start_time t).

End TimeManager.

(** A concrete environment, used to run the time manager: rationals stand
    for the doubles. *)
#[global] Instance rational_double : DoubleAPI := {
  double := Q;
  d_zero := 0%Q;
  d_one := 1%Q;
  SMOOTH_FACTOR := (95 # 100)%Q;
  MINIMUM_DELTA := (1 # 60)%Q;
  MAXIMUM_DELTA := (1 # 50)%Q;
  d_add := Qplus;
  d_sub := Qminus;
  d_mul := Qmult;
  d_ltb := fun x y => negb (Qle_bool y x);
  d_neqb := fun x y => negb (Qeq_bool x y)
}.

(** A time manager started at second 5, not yet updated, and the same one
    paused at second 7. *)
Definition fresh_timer : timer_t :=
  mk_timer 5%Q 0%Q 0%Q 0%Q 0 false 0%Q 0%Q.
Definition paused_timer : timer_t := timer_pause fresh_timer 7%Q.

End Timer.

(** * Properties *)

Section ObstacleMapFacts.
Context {api : ObstacleAPI}.
Implicit Types (a b best : option obstacle_t) (o s w : obstacle_t).
Implicit Types (m : obstaclemap_t) (lf : obstaclelayer_t) (mm : movmode_t).

(** ** The layer test *)

Lemma layer_neqb_true (l1 l2 : obstaclelayer_t) :
  layer_neqb l1 l2 = true <-> l1 <> l2.
Proof.
  unfold layer_neqb. destruct (obstaclelayer_eq_dec l1 l2) as [e | n].
  - split; [discriminate | intros H; now elim H].
  - split; trivial.
Qed.

Lemma layer_neqb_refl (l : obstaclelayer_t) : layer_neqb l l = false.
Proof.
  unfold layer_neqb. destruct (obstaclelayer_eq_dec l l) as [e | n]; trivial.
  now elim n.
Qed.

Lemma touches_true lf x1 y1 x2 y2 o :
  touches lf x1 y1 x2 y2 o = true <->
  ignore_obstacle o lf = false /\ obstacle_got_collision o x1 y1 x2 y2 = true.
Proof.
  unfold touches. rewrite andb_true_iff, negb_true_iff. tauto.
Qed.

(** ** The tie-break *)

Lemma pick_best_obstacle_null_l b x1 y1 x2 y2 mm :
  pick_best_obstacle None b x1 y1 x2 y2 mm = b.
Proof. reflexivity. Qed.

Lemma pick_best_obstacle_null_r a x1 y1 x2 y2 mm :
  pick_best_obstacle a None x1 y1 x2 y2 mm = a.
Proof. destruct a; reflexivity. Qed.

Lemma pick_best_obstacle_either a b x1 y1 x2 y2 mm :
  pick_best_obstacle a b x1 y1 x2 y2 mm = a \/
  pick_best_obstacle a b x1 y1 x2 y2 mm = b.
Proof.
  destruct a as [oa |], b as [ob |]; simpl; auto.
  destruct (obstacle_is_solid oa), (obstacle_is_solid ob); simpl; auto;
    destruct mm;
    match goal with
    | |- context [if ?c then _ else _] => destruct c; auto
    end.
Qed.

Lemma pick_best_obstacle_visited o best x1 y1 x2 y2 mm :
  pick_best_obstacle (Some o) best x1 y1 x2 y2 mm <> None.
Proof.
  destruct (pick_best_obstacle_either (Some o) best x1 y1 x2 y2 mm) as [E | E];
    rewrite E; [discriminate |].
  destruct best; [discriminate |].
  rewrite pick_best_obstacle_null_r in E. discriminate.
Qed.

Lemma pick_best_obstacle_solid_l s w x1 y1 x2 y2 mm :
  obstacle_is_solid s = true -> obstacle_is_solid w = false ->
  pick_best_obstacle (Some s) (Some w) x1 y1 x2 y2 mm = Some s.
Proof. intros Hs Hw. simpl. now rewrite Hs, Hw. Qed.

Lemma pick_best_obstacle_solid_r s w x1 y1 x2 y2 mm :
  obstacle_is_solid s = true -> obstacle_is_solid w = false ->
  pick_best_obstacle (Some w) (Some s) x1 y1 x2 y2 mm = Some s.
Proof. intros Hs Hw. simpl. now rewrite Hs, Hw. Qed.

(** ** The scan of [obstaclemap_get_best_obstacle_at] *)

(** Once a candidate is held, the scan never drops back to [NULL]. *)
Lemma scan_keeps_candidate x1 y1 x2 y2 mm lf (arr : list obstacle_t) best :
  best <> None ->
  fold_left (best_step x1 y1 x2 y2 mm lf) arr best <> None.
Proof.
  revert best. induction arr as [| o arr IH]; intros best Hb; simpl; trivial.
  apply IH. unfold best_step.
  destruct (touches lf x1 y1 x2 y2 o); trivial.
  apply pick_best_obstacle_visited.
Qed.

Lemma scan_null_iff x1 y1 x2 y2 mm lf (arr : list obstacle_t) best :
  fold_left (best_step x1 y1 x2 y2 mm lf) arr best = None <->
  best = None /\ forall o, In o arr -> touches lf x1 y1 x2 y2 o = false.
Proof.
  revert best. induction arr as [| o arr IH]; intros best; simpl.
  - split; [intros ->; split; [trivial | contradiction] | tauto].
  - rewrite IH. unfold best_step.
    destruct (touches lf x1 y1 x2 y2 o) eqn:T.
    + split.
      * intros [E _]. now apply pick_best_obstacle_visited in E.
      * intros [_ H]. specialize (H o (or_introl eq_refl)). congruence.
    + split.
      * intros [E H]. split; trivial. intros o' [<- | Hin]; auto.
      * intros [E H]. split; auto.
Qed.

(** The scan only looks at the obstacles that pass the loop's test; on
    those it folds the tie-break, visited obstacle first. *)
Lemma scan_filter x1 y1 x2 y2 mm lf (arr : list obstacle_t) best :
  fold_left (best_step x1 y1 x2 y2 mm lf) arr best =
  fold_left (fun acc o => pick_best_obstacle (Some o) acc x1 y1 x2 y2 mm)
            (filter (touches lf x1 y1 x2 y2) arr) best.
Proof.
  revert best. induction arr as [| o arr IH]; intros best; simpl; trivial.
  rewrite IH. unfold best_step.
  destruct (touches lf x1 y1 x2 y2 o); reflexivity.
Qed.

(** ** The scans of the two existence queries *)

Lemma obstacle_exists_from_true (arr : list obstacle_t) x y lf :
  obstacle_exists_from arr x y lf = true <->
  exists o, In o arr /\ ignore_obstacle o lf = false
            /\ obstacle_got_collision o x y x y = true.
Proof.
  induction arr as [| o arr IH]; simpl.
  - split; [discriminate | intros (o & [] & _)].
  - destruct (negb (ignore_obstacle o lf) && obstacle_got_collision o x y x y) eqn:T.
    + split; trivial. intros _. exists o.
      apply andb_true_iff in T as [Hi Hc]. apply negb_true_iff in Hi. auto.
    + rewrite IH. split.
      * intros (o' & Hin & H). exists o'. auto.
      * intros (o' & [<- | Hin] & Hi & Hc).
        -- rewrite Hi, Hc in T. discriminate.
        -- exists o'. auto.
Qed.

Lemma solid_exists_from_true (arr : list obstacle_t) x y lf :
  solid_exists_from arr x y lf = true <->
  exists o, In o arr /\ ignore_obstacle o lf = false
            /\ obstacle_got_collision o x y x y = true
            /\ obstacle_is_solid o = true.
Proof.
  induction arr as [| o arr IH]; simpl.
  - split; [discriminate | intros (o & [] & _)].
  - destruct (negb (ignore_obstacle o lf) && obstacle_got_collision o x y x y
              && obstacle_is_solid o) eqn:T.
    + split; trivial. intros _. exists o.
      apply andb_true_iff in T as [T Hs]. apply andb_true_iff in T as [Hi Hc].
      apply negb_true_iff in Hi. auto.
    + rewrite IH. split.
      * intros (o' & Hin & H). exists o'. auto.
      * intros (o' & [<- | Hin] & Hi & Hc & Hs).
        -- rewrite Hi, Hc, Hs in T. discriminate.
        -- exists o'. auto.
Qed.

(** ** The claims *)

(** C1: for every obstacle map, probe rectangle with [x1 <= x2] and
    [y1 <= y2], movement mode and layer filter,
    [obstaclemap_get_best_obstacle_at] returns [NULL] if and only if no
    registered obstacle both passes the layer filter ([ignore_obstacle]
    false) and reports a collision with the probe rectangle.  The query is a
    total function into [option obstacle_t]: [None] is one of its ordinary
    results, there is no error outcome. *)
Theorem get_best_obstacle_at_none_iff m x1 y1 x2 y2 mm lf :
  x1 <= x2 -> y1 <= y2 ->
  (obstaclemap_get_best_obstacle_at m x1 y1 x2 y2 mm lf = None <->
   ~ exists o, In o (obstacle m)
               /\ ignore_obstacle o lf = false
               /\ obstacle_got_collision o x1 y1 x2 y2 = true).
Proof.
  intros _ _. unfold obstaclemap_get_best_obstacle_at.
  rewrite scan_null_iff. split.
  - intros [_ H] (o & Hin & Hi & Hc).
    assert (T : touches lf x1 y1 x2 y2 o = true) by now apply touches_true.
    rewrite (H o Hin) in T. discriminate.
  - intros H. split; trivial. intros o Hin.
    destruct (touches lf x1 y1 x2 y2 o) eqn:T; trivial.
    apply touches_true in T as [Hi Hc]. elim H. exists o. auto.
Qed.

(** C2: when exactly one of two non-[NULL] obstacles is solid, call it [s]
    and the one-way one [w], [pick_best_obstacle] returns [s] in either
    argument order, for every movement mode and probe rectangle;
    consequently, when the obstacles of a map that pass the filter and
    collide with the probe are exactly [s] and [w] (in either insertion
    order), [obstaclemap_get_best_obstacle_at] returns [s]. *)
Theorem solid_beats_one_way s w :
  obstacle_is_solid s = true -> obstacle_is_solid w = false ->
  (forall x1 y1 x2 y2 mm,
      pick_best_obstacle (Some s) (Some w) x1 y1 x2 y2 mm = Some s /\
      pick_best_obstacle (Some w) (Some s) x1 y1 x2 y2 mm = Some s) /\
  (forall m x1 y1 x2 y2 mm lf,
      Permutation (filter (touches lf x1 y1 x2 y2) (obstacle m)) [s; w] ->
      obstaclemap_get_best_obstacle_at m x1 y1 x2 y2 mm lf = Some s).
Proof.
  intros Hs Hw. split.
  - intros. split.
    + now apply pick_best_obstacle_solid_l.
    + now apply pick_best_obstacle_solid_r.
  - intros m x1 y1 x2 y2 mm lf P.
    unfold obstaclemap_get_best_obstacle_at. rewrite scan_filter.
    apply Permutation_sym, Permutation_length_2_inv in P.
    destruct P as [-> | ->]; cbn [fold_left];
      rewrite pick_best_obstacle_null_r.
    + now apply pick_best_obstacle_solid_r.
    + now apply pick_best_obstacle_solid_l.
Qed.

(** C3, as the code has it: in RIGHT_WALL mode with two non-[NULL] one-way
    obstacles [a] and [b], [pick_best_obstacle] compares their ground
    positions at [(x2,y2)] in direction RIGHT and returns [a] when
    [ha >= hb], [b] otherwise: the greater value wins, the first argument
    on ties. *)
Theorem pick_best_one_way_rightwall (oa ob : obstacle_t) x1 y1 x2 y2 :
  obstacle_is_solid oa = false -> obstacle_is_solid ob = false ->
  pick_best_obstacle (Some oa) (Some ob) x1 y1 x2 y2 MM_RIGHTWALL =
  if obstacle_ground_position oa x2 y2 GD_RIGHT
     >=? obstacle_ground_position ob x2 y2 GD_RIGHT
  then Some oa else Some ob.
Proof. intros Ha Hb. simpl. now rewrite Ha, Hb. Qed.

(** C4, as the code has it: in LEFT_WALL mode with two non-[NULL] one-way
    obstacles [a] and [b], [pick_best_obstacle] compares their ground
    positions at [(x1,y2)] in direction LEFT and returns [a] when
    [ha < hb], [b] otherwise: the lesser value wins, the second argument on
    ties. *)
Theorem pick_best_one_way_leftwall (oa ob : obstacle_t) x1 y1 x2 y2 :
  obstacle_is_solid oa = false -> obstacle_is_solid ob = false ->
  pick_best_obstacle (Some oa) (Some ob) x1 y1 x2 y2 MM_LEFTWALL =
  if obstacle_ground_position oa x1 y2 GD_LEFT
     <? obstacle_ground_position ob x1 y2 GD_LEFT
  then Some oa else Some ob.
Proof. intros Ha Hb. simpl. now rewrite Ha, Hb. Qed.

(** C5: in FLOOR mode with two non-[NULL] solid obstacles [a] and [b] whose
    ground positions at [(x2,y2)] in direction DOWN satisfy [h_a < h_b],
    [pick_best_obstacle a b] returns [a]. *)
Theorem pick_best_solid_floor (oa ob : obstacle_t) x1 y1 x2 y2 :
  obstacle_is_solid oa = true -> obstacle_is_solid ob = true ->
  obstacle_ground_position oa x2 y2 GD_DOWN
    < obstacle_ground_position ob x2 y2 GD_DOWN ->
  pick_best_obstacle (Some oa) (Some ob) x1 y1 x2 y2 MM_FLOOR = Some oa.
Proof.
  intros Ha Hb Hlt. simpl. rewrite Ha, Hb. simpl.
  apply Z.ltb_lt in Hlt. now rewrite Hlt.
Qed.

(** C6: [ignore_obstacle o filter] is true if and only if
    [filter != OL_DEFAULT], the obstacle's layer is not [OL_DEFAULT] and the
    obstacle's layer differs from the filter; in particular it is false
    when the filter is [OL_DEFAULT], when the obstacle's layer is
    [OL_DEFAULT], and when the obstacle's layer equals the filter. *)
Theorem ignore_obstacle_spec o lf :
  (ignore_obstacle o lf = true <->
   lf <> OL_DEFAULT /\ obstacle_get_layer o <> OL_DEFAULT
                    /\ obstacle_get_layer o <> lf) /\
  ignore_obstacle o OL_DEFAULT = false /\
  (obstacle_get_layer o = OL_DEFAULT -> ignore_obstacle o lf = false) /\
  (obstacle_get_layer o = lf -> ignore_obstacle o lf = false).
Proof.
  unfold ignore_obstacle. cbv zeta. split; [| split; [| split]].
  - rewrite !andb_true_iff, !layer_neqb_true. tauto.
  - now rewrite layer_neqb_refl.
  - intros E. rewrite E, layer_neqb_refl, andb_false_r. reflexivity.
  - intros E. rewrite E, layer_neqb_refl. apply andb_false_r.
Qed.

(** C7: for every map, point and filter, [obstaclemap_obstacle_exists] is
    true iff some registered, non-ignored obstacle reports a collision with
    the degenerate rectangle [(x,y,x,y)]; [obstaclemap_solid_exists] is true
    iff some registered, non-ignored obstacle reports that collision and is
    solid; hence the second being true implies the first being true. *)
Theorem exists_queries_spec m x y lf :
  (obstaclemap_obstacle_exists m x y lf = true <->
   exists o, In o (obstacle m) /\ ignore_obstacle o lf = false
             /\ obstacle_got_collision o x y x y = true) /\
  (obstaclemap_solid_exists m x y lf = true <->
   exists o, In o (obstacle m) /\ ignore_obstacle o lf = false
             /\ obstacle_got_collision o x y x y = true
             /\ obstacle_is_solid o = true) /\
  (obstaclemap_solid_exists m x y lf = true ->
   obstaclemap_obstacle_exists m x y lf = true).
Proof.
  unfold obstaclemap_obstacle_exists, obstaclemap_solid_exists.
  split; [apply obstacle_exists_from_true |].
  split; [apply solid_exists_from_true |].
  rewrite solid_exists_from_true, obstacle_exists_from_true.
  intros (o & Hin & Hi & Hc & _). exists o. auto.
Qed.

(** C8: for every movement mode and probe rectangle,
    [pick_best_obstacle a NULL = a] and [pick_best_obstacle NULL b = b];
    for every pair the result is one of [a] and [b], so it is non-[NULL]
    whenever at least one argument is non-[NULL]. *)
Theorem pick_best_obstacle_null_identity a b x1 y1 x2 y2 mm :
  pick_best_obstacle a None x1 y1 x2 y2 mm = a /\
  pick_best_obstacle None b x1 y1 x2 y2 mm = b /\
  (pick_best_obstacle a b x1 y1 x2 y2 mm = a \/
   pick_best_obstacle a b x1 y1 x2 y2 mm = b) /\
  (a <> None \/ b <> None -> pick_best_obstacle a b x1 y1 x2 y2 mm <> None).
Proof.
  split; [apply pick_best_obstacle_null_r |].
  split; [apply pick_best_obstacle_null_l |].
  split; [apply pick_best_obstacle_either |].
  intros Hab. destruct a as [oa |].
  - apply pick_best_obstacle_visited.
  - rewrite pick_best_obstacle_null_l. destruct Hab as [H | H]; trivial.
    now elim H.
Qed.

(** C9: for every map, after [obstaclemap_clear] the length of the map is 0
    and, on the map left unmodified, [obstaclemap_get_best_obstacle_at]
    returns [NULL] and both existence queries return false, for every probe
    rectangle, point, mode and filter. *)
Theorem clear_empties_map m :
  darray_length (obstacle (obstaclemap_clear m)) = 0%nat /\
  (forall x1 y1 x2 y2 mm lf,
      obstaclemap_get_best_obstacle_at (obstaclemap_clear m) x1 y1 x2 y2 mm lf
      = None) /\
  (forall x y lf,
      obstaclemap_obstacle_exists (obstaclemap_clear m) x y lf = false) /\
  (forall x y lf,
      obstaclemap_solid_exists (obstaclemap_clear m) x y lf = false).
Proof. repeat split. Qed.

(** C10: for a map holding exactly two one-way obstacles, [o1] inserted
    before [o2], that both pass the layer filter and both collide with the
    probe, and whose ground positions at [(x2,y2)] in direction DOWN are
    equal, [obstaclemap_get_best_obstacle_at] in FLOOR mode returns the
    later-inserted [o2]: the scan hands the visited obstacle to the
    tie-break as first argument, and the FLOOR one-way test [ha >= hb]
    keeps the first argument on ties. *)
Theorem floor_tie_returns_later_inserted m (o1 o2 : obstacle_t) x1 y1 x2 y2 lf :
  obstacle m = [o1; o2] ->
  obstacle_is_solid o1 = false -> obstacle_is_solid o2 = false ->
  ignore_obstacle o1 lf = false -> ignore_obstacle o2 lf = false ->
  obstacle_got_collision o1 x1 y1 x2 y2 = true ->
  obstacle_got_collision o2 x1 y1 x2 y2 = true ->
  obstacle_ground_position o1 x2 y2 GD_DOWN
    = obstacle_ground_position o2 x2 y2 GD_DOWN ->
  obstaclemap_get_best_obstacle_at m x1 y1 x2 y2 MM_FLOOR lf = Some o2 /\
  best_step x1 y1 x2 y2 MM_FLOOR lf (Some o1) o2
    = pick_best_obstacle (Some o2) (Some o1) x1 y1 x2 y2 MM_FLOOR.
Proof.
  intros Hm S1 S2 I1 I2 C1 C2 Heq.
  unfold obstaclemap_get_best_obstacle_at. rewrite Hm.
  cbn [fold_left]. unfold best_step, touches.
  rewrite I1, I2, C1, C2. cbn [negb andb].
  split; [| reflexivity].
  simpl. rewrite S1, S2. simpl. rewrite Heq.
  now rewrite (proj2 (Z.geb_le _ _) (Z.le_refl _)).
Qed.

End ObstacleMapFacts.


(** * The theorems at work on concrete scenes *)

(** The spec's scenario.  A FLOOR probe down to row 95 above the platform
    only meets the platform; down to row 125 it meets both, and the solid
    block is returned. *)
Example scenario_only_platform :
  obstaclemap_get_best_obstacle_at
    (Box.scene [Box.block_A; Box.platform_B]) 50 0 50 95 MM_FLOOR Box.L_DEFAULT
  = Some Box.platform_B.
Proof. reflexivity. Qed.

Example scenario_block_and_platform :
  obstaclemap_get_best_obstacle_at
    (Box.scene [Box.block_A; Box.platform_B]) 50 0 50 125 MM_FLOOR Box.L_DEFAULT
  = Some Box.block_A.
Proof. reflexivity. Qed.

(** A platform on the green layer is skipped by a yellow query and seen by
    a green or a default one. *)
Example green_platform_layers :
  ignore_obstacle Box.platform_G Box.L_YELLOW = true /\
  ignore_obstacle Box.platform_G Box.L_GREEN = false /\
  ignore_obstacle Box.platform_G Box.L_DEFAULT = false.
Proof. repeat split. Qed.

(** With equal tops the FLOOR result follows insertion order. *)
Example floor_tie_order_dependent :
  obstaclemap_get_best_obstacle_at
    (Box.scene [Box.platform_C; Box.platform_B]) 50 0 50 95 MM_FLOOR Box.L_DEFAULT
  = Some Box.platform_B.
Proof. reflexivity. Qed.

(** C1 at a probe that stops above both obstacles of the scenario. *)
Lemma get_best_obstacle_at_none_iff_witness :
  50 <= 50 /\ 0 <= 80 /\
  (obstaclemap_get_best_obstacle_at
     (Box.scene [Box.block_A; Box.platform_B]) 50 0 50 80 MM_FLOOR Box.L_DEFAULT
   = None <->
   ~ exists o, In o (obstacle (Box.scene [Box.block_A; Box.platform_B]))
               /\ ignore_obstacle o Box.L_DEFAULT = false
               /\ obstacle_got_collision o 50 0 50 80 = true).
Proof.
  split; [lia | split; [lia |]].
  apply (get_best_obstacle_at_none_iff
           (Box.scene [Box.block_A; Box.platform_B]) 50 0 50 80
           MM_FLOOR Box.L_DEFAULT); lia.
Defined.

(** C2 at the scenario's block and platform, the platform inserted first. *)
Lemma solid_beats_one_way_witness :
  obstacle_is_solid Box.block_A = true /\
  obstacle_is_solid Box.platform_B = false /\
  pick_best_obstacle (Some Box.block_A) (Some Box.platform_B)
    50 0 50 125 MM_CEILING = Some Box.block_A /\
  pick_best_obstacle (Some Box.platform_B) (Some Box.block_A)
    50 0 50 125 MM_CEILING = Some Box.block_A /\
  obstaclemap_get_best_obstacle_at
    (Box.scene [Box.platform_B; Box.block_A]) 50 0 50 125 MM_FLOOR Box.L_DEFAULT
  = Some Box.block_A.
Proof.
  destruct (solid_beats_one_way Box.block_A Box.platform_B eq_refl eq_refl)
    as [P G].
  split; [reflexivity | split; [reflexivity |]].
  split; [apply P | split; [apply P |]].
  apply G. apply perm_swap.
Defined.

(** C3 as the spec words it fails: two one-way platforms, the first with
    the strictly lesser ground position to the RIGHT (40 against 45), and
    RIGHT_WALL mode returns the second one. *)
Lemma rightwall_lesser_counterexample :
  obstacle_is_solid Box.platform_B = false /\
  obstacle_is_solid Box.platform_C = false /\
  obstacle_ground_position Box.platform_B 50 100 GD_RIGHT = 40 /\
  obstacle_ground_position Box.platform_C 50 100 GD_RIGHT = 45 /\
  pick_best_obstacle (Some Box.platform_B) (Some Box.platform_C)
    30 100 50 100 MM_RIGHTWALL = Some Box.platform_C /\
  pick_best_obstacle (Some Box.platform_B) (Some Box.platform_C)
    30 100 50 100 MM_RIGHTWALL <> Some Box.platform_B.
Proof. repeat split; discriminate. Qed.

(** C3 as amended, on the same pair: [40 >= 45] fails, so [b] is returned. *)
Lemma pick_best_one_way_rightwall_witness :
  obstacle_is_solid Box.platform_B = false /\
  obstacle_is_solid Box.platform_C = false /\
  pick_best_obstacle (Some Box.platform_B) (Some Box.platform_C)
    30 100 50 100 MM_RIGHTWALL =
  if obstacle_ground_position Box.platform_B 50 100 GD_RIGHT
     >=? obstacle_ground_position Box.platform_C 50 100 GD_RIGHT
  then Some Box.platform_B else Some Box.platform_C.
Proof.
  split; [reflexivity | split; [reflexivity |]].
  apply (pick_best_one_way_rightwall Box.platform_B Box.platform_C);
    reflexivity.
Defined.

(** C4 as the spec words it fails: two one-way platforms, the second with
    the greater ground position to the LEFT (70 against 60), and LEFT_WALL
    mode returns the first one, the lesser. *)
Lemma leftwall_greater_counterexample :
  obstacle_is_solid Box.platform_B = false /\
  obstacle_is_solid Box.platform_C = false /\
  obstacle_ground_position Box.platform_B 30 100 GD_LEFT = 60 /\
  obstacle_ground_position Box.platform_C 30 100 GD_LEFT = 70 /\
  pick_best_obstacle (Some Box.platform_B) (Some Box.platform_C)
    30 100 50 100 MM_LEFTWALL = Some Box.platform_B /\
  pick_best_obstacle (Some Box.platform_B) (Some Box.platform_C)
    30 100 50 100 MM_LEFTWALL <> Some Box.platform_C.
Proof. repeat split; discriminate. Qed.

(** C4 as amended, on the same pair: [60 < 70] holds, so [a] is returned. *)
Lemma pick_best_one_way_leftwall_witness :
  obstacle_is_solid Box.platform_B = false /\
  obstacle_is_solid Box.platform_C = false /\
  pick_best_obstacle (Some Box.platform_B) (Some Box.platform_C)
    30 100 50 100 MM_LEFTWALL =
  if obstacle_ground_position Box.platform_B 30 100 GD_LEFT
     <? obstacle_ground_position Box.platform_C 30 100 GD_LEFT
  then Some Box.platform_B else Some Box.platform_C.
Proof.
  split; [reflexivity | split; [reflexivity |]].
  apply (pick_best_one_way_leftwall Box.platform_B Box.platform_C);
    reflexivity.
Defined.

(** C5 on two solid blocks with tops at rows 100 and 110. *)
Lemma pick_best_solid_floor_witness :
  obstacle_is_solid Box.block_A = true /\
  obstacle_is_solid Box.block_D = true /\
  obstacle_ground_position Box.block_A 50 125 GD_DOWN
    < obstacle_ground_position Box.block_D 50 125 GD_DOWN /\
  pick_best_obstacle (Some Box.block_A) (Some Box.block_D)
    50 0 50 125 MM_FLOOR = Some Box.block_A.
Proof.
  split; [reflexivity | split; [reflexivity | split; [reflexivity |]]].
  apply (pick_best_solid_floor Box.block_A Box.block_D); reflexivity.
Defined.

(** C6 on the green platform: it sits on the queried layer, so it is kept. *)
Lemma ignore_obstacle_spec_witness :
  obstacle_get_layer Box.platform_G = Box.L_GREEN /\
  ignore_obstacle Box.platform_G Box.L_GREEN = false.
Proof.
  split; [reflexivity |].
  apply (ignore_obstacle_spec Box.platform_G Box.L_GREEN). reflexivity.
Defined.

(** C7 at a point inside the scenario's solid block. *)
Lemma exists_queries_spec_witness :
  obstaclemap_solid_exists
    (Box.scene [Box.block_A; Box.platform_B]) 50 115 Box.L_DEFAULT = true /\
  obstaclemap_obstacle_exists
    (Box.scene [Box.block_A; Box.platform_B]) 50 115 Box.L_DEFAULT = true.
Proof.
  split; [reflexivity |].
  apply (exists_queries_spec
           (Box.scene [Box.block_A; Box.platform_B]) 50 115 Box.L_DEFAULT).
  reflexivity.
Defined.

(** C8 with a [NULL] second argument. *)
Lemma pick_best_obstacle_null_identity_witness :
  Some Box.platform_B <> None /\
  pick_best_obstacle (Some Box.platform_B) None 50 0 50 95 MM_LEFTWALL <> None.
Proof.
  split; [discriminate |].
  apply (pick_best_obstacle_null_identity
           (Some Box.platform_B) None 50 0 50 95 MM_LEFTWALL).
  left. discriminate.
Defined.

(** C10 on two platforms with the same top row, 90. *)
Lemma floor_tie_returns_later_inserted_witness :
  obstacle (Box.scene [Box.platform_B; Box.platform_C])
    = [Box.platform_B; Box.platform_C] /\
  obstacle_ground_position Box.platform_B 50 95 GD_DOWN
    = obstacle_ground_position Box.platform_C 50 95 GD_DOWN /\
  obstaclemap_get_best_obstacle_at
    (Box.scene [Box.platform_B; Box.platform_C]) 50 0 50 95 MM_FLOOR Box.L_DEFAULT
  = Some Box.platform_C.
Proof.
  split; [reflexivity | split; [reflexivity |]].
  apply (floor_tie_returns_later_inserted
           (Box.scene [Box.platform_B; Box.platform_C])
           Box.platform_B Box.platform_C 50 0 50 95 Box.L_DEFAULT);
    reflexivity.
Defined.


(** * Further properties of the obstacle map *)

Section ObstacleMapScan.
Context {api : ObstacleAPI}.
Implicit Types (a b best : option obstacle_t) (o r s w : obstacle_t).
Implicit Types (m : obstaclemap_t) (lf : obstaclelayer_t) (mm : movmode_t).

(** ** The tie-break as a choice of the better obstacle *)

(** With the same solidity, the tie-break is one comparison of the sensed
    heights: strict when the lesser wins, so that the second argument is
    kept on ties, non-strict otherwise. *)
Lemma pick_best_obstacle_same_solidity (oa ob : obstacle_t) x1 y1 x2 y2 mm :
  obstacle_is_solid oa = obstacle_is_solid ob ->
  pick_best_obstacle (Some oa) (Some ob) x1 y1 x2 y2 mm =
  if lesser_wins mm (obstacle_is_solid oa)
  then (if sensed_height mm x1 y1 x2 y2 oa <? sensed_height mm x1 y1 x2 y2 ob
        then Some oa else Some ob)
  else (if sensed_height mm x1 y1 x2 y2 oa >=? sensed_height mm x1 y1 x2 y2 ob
        then Some oa else Some ob).
Proof.
  intros E. simpl. rewrite <- E.
  destruct (obstacle_is_solid oa), mm; reflexivity.
Qed.

Lemma at_least_as_good_trans mm x1 y1 x2 y2 r p o :
  at_least_as_good mm x1 y1 x2 y2 r p ->
  at_least_as_good mm x1 y1 x2 y2 p o ->
  at_least_as_good mm x1 y1 x2 y2 r o.
Proof.
  unfold at_least_as_good.
  intros [[Hr Hp] | [Erp Hrp]] [[Hp' Ho] | [Epo Hpo]].
  - congruence.
  - left. split; congruence.
  - left. split; congruence.
  - right. split; [congruence |].
    rewrite <- Erp in Hpo.
    destruct (lesser_wins mm (obstacle_is_solid r)); lia.
Qed.

(** The obstacle returned by the tie-break is at least as good as both
    arguments. *)
Lemma pick_best_obstacle_good (oa ob : obstacle_t) x1 y1 x2 y2 mm :
  exists r, pick_best_obstacle (Some oa) (Some ob) x1 y1 x2 y2 mm = Some r /\
            at_least_as_good mm x1 y1 x2 y2 r oa /\
            at_least_as_good mm x1 y1 x2 y2 r ob.
Proof.
  destruct (obstacle_is_solid oa) eqn:Sa, (obstacle_is_solid ob) eqn:Sb.
  - rewrite pick_best_obstacle_same_solidity by congruence. rewrite Sa.
    unfold at_least_as_good.
    destruct (lesser_wins mm true) eqn:L;
      [destruct (Z.ltb_spec (sensed_height mm x1 y1 x2 y2 oa)
                            (sensed_height mm x1 y1 x2 y2 ob))
      | destruct (Z.geb_spec (sensed_height mm x1 y1 x2 y2 oa)
                             (sensed_height mm x1 y1 x2 y2 ob))];
      eexists; (split; [reflexivity |]);
      split; right; rewrite ?Sa, ?Sb, ?L; (split; [reflexivity | lia]).
  - exists oa. split; [now apply pick_best_obstacle_solid_l |].
    split; [right | left]; rewrite ?Sa; auto.
    split; trivial. destruct (lesser_wins mm true); lia.
  - exists ob. split; [now apply pick_best_obstacle_solid_r |].
    split; [left | right]; rewrite ?Sb; auto.
    split; trivial. destruct (lesser_wins mm true); lia.
  - rewrite pick_best_obstacle_same_solidity by congruence. rewrite Sa.
    unfold at_least_as_good.
    destruct (lesser_wins mm false) eqn:L;
      [destruct (Z.ltb_spec (sensed_height mm x1 y1 x2 y2 oa)
                            (sensed_height mm x1 y1 x2 y2 ob))
      | destruct (Z.geb_spec (sensed_height mm x1 y1 x2 y2 oa)
                             (sensed_height mm x1 y1 x2 y2 ob))];
      eexists; (split; [reflexivity |]);
      split; right; rewrite ?Sa, ?Sb, ?L; (split; [reflexivity | lia]).
Qed.

(** ** The fold over the obstacles that pass the loop's test *)

Lemma fold_pick_from_some x1 y1 x2 y2 mm (cands : list obstacle_t) (p : obstacle_t) :
  exists r,
    fold_left (fun acc o => pick_best_obstacle (Some o) acc x1 y1 x2 y2 mm)
              cands (Some p) = Some r /\
    (r = p \/ In r cands) /\
    at_least_as_good mm x1 y1 x2 y2 r p /\
    (forall o, In o cands -> at_least_as_good mm x1 y1 x2 y2 r o).
Proof.
  assert (refl : forall q, at_least_as_good mm x1 y1 x2 y2 q q).
  { intros q. right. split; trivial.
    destruct (lesser_wins mm (obstacle_is_solid q)); lia. }
  revert p. induction cands as [| c cands IH]; intros p; cbn [fold_left].
  - exists p. repeat split; auto. contradiction.
  - destruct (pick_best_obstacle_good c p x1 y1 x2 y2 mm) as (q & Eq & Gc & Gp).
    rewrite Eq. destruct (IH q) as (r & Er & Hin & Gq & Gall).
    exists r. split; trivial. split; [| split].
    + destruct Hin as [-> | Hin]; [| right; right; exact Hin].
      destruct (pick_best_obstacle_either (Some c) (Some p) x1 y1 x2 y2 mm)
        as [E | E]; rewrite E in Eq; inversion Eq; subst;
        [right; left | left]; reflexivity.
    + eapply at_least_as_good_trans; eauto.
    + intros o [<- | Ho]; auto. eapply at_least_as_good_trans; eauto.
Qed.

(** A scan that returns an obstacle returns one of the obstacles passing
    the test, at least as good as every other one. *)
Lemma scan_result x1 y1 x2 y2 mm lf m r :
  obstaclemap_get_best_obstacle_at m x1 y1 x2 y2 mm lf = Some r ->
  In r (filter (touches lf x1 y1 x2 y2) (obstacle m)) /\
  forall o, In o (filter (touches lf x1 y1 x2 y2) (obstacle m)) ->
            at_least_as_good mm x1 y1 x2 y2 r o.
Proof.
  unfold obstaclemap_get_best_obstacle_at. rewrite scan_filter.
  destruct (filter (touches lf x1 y1 x2 y2) (obstacle m)) as [| c cands];
    [discriminate |].
  cbn [fold_left]. rewrite pick_best_obstacle_null_r.
  destruct (fold_pick_from_some x1 y1 x2 y2 mm cands c) as (q & Eq & Hin & Gc & Gall).
  rewrite Eq. intros [= <-]. split.
  - destruct Hin as [-> | Hin]; [left | right]; trivial.
  - intros o [<- | Ho]; auto.
Qed.

Lemma candidate_iff lf x1 y1 x2 y2 (arr : list obstacle_t) o :
  In o (filter (touches lf x1 y1 x2 y2) arr) <->
  In o arr /\ ignore_obstacle o lf = false
           /\ obstacle_got_collision o x1 y1 x2 y2 = true.
Proof. rewrite filter_In, touches_true. tauto. Qed.

Lemma obstacle_exists_from_app (l1 l2 : list obstacle_t) x y lf :
  obstacle_exists_from (l1 ++ l2) x y lf =
  obstacle_exists_from l1 x y lf || obstacle_exists_from l2 x y lf.
Proof.
  induction l1 as [| o l1 IH]; simpl; trivial.
  destruct (negb (ignore_obstacle o lf) && obstacle_got_collision o x y x y);
    trivial.
Qed.

Lemma solid_exists_from_app (l1 l2 : list obstacle_t) x y lf :
  solid_exists_from (l1 ++ l2) x y lf =
  solid_exists_from l1 x y lf || solid_exists_from l2 x y lf.
Proof.
  induction l1 as [| o l1 IH]; simpl; trivial.
  destruct (negb (ignore_obstacle o lf) && obstacle_got_collision o x y x y
            && obstacle_is_solid o); trivial.
Qed.

(** ** What the best-obstacle query returns *)

(** X1: an obstacle returned by [obstaclemap_get_best_obstacle_at] is
    registered in the map, passes the layer filter and collides with the
    probe rectangle. *)
Theorem get_best_obstacle_at_is_candidate m x1 y1 x2 y2 mm lf r :
  obstaclemap_get_best_obstacle_at m x1 y1 x2 y2 mm lf = Some r ->
  In r (obstacle m) /\ ignore_obstacle r lf = false
                    /\ obstacle_got_collision r x1 y1 x2 y2 = true.
Proof.
  intros H. apply scan_result in H as [Hin _]. now apply candidate_iff in Hin.
Qed.

(** X2: the obstacle returned is solid exactly when some registered obstacle
    that passes the filter and collides with the probe is solid: a one-way
    platform is returned only when no solid obstacle is hit, however many
    obstacles there are and in whatever order they were inserted. *)
Theorem get_best_obstacle_at_solid_iff m x1 y1 x2 y2 mm lf r :
  obstaclemap_get_best_obstacle_at m x1 y1 x2 y2 mm lf = Some r ->
  (obstacle_is_solid r = true <->
   exists o, In o (obstacle m) /\ ignore_obstacle o lf = false
             /\ obstacle_got_collision o x1 y1 x2 y2 = true
             /\ obstacle_is_solid o = true).
Proof.
  intros H. apply scan_result in H as [Hin Hbest]. split.
  - intros Hs. exists r. apply candidate_iff in Hin. tauto.
  - intros (o & Ho & Hi & Hc & Hs).
    destruct (Hbest o) as [[Hr _] | [E _]]; [apply candidate_iff; auto | | ];
      congruence.
Qed.

(** X3: when the obstacle returned is solid, it is the tallest of the solid
    obstacles hit: its sensed height is the least one in FLOOR and
    RIGHT_WALL mode, the greatest one in CEILING and LEFT_WALL mode. *)
Theorem get_best_obstacle_at_tallest_solid m x1 y1 x2 y2 mm lf r o :
  obstaclemap_get_best_obstacle_at m x1 y1 x2 y2 mm lf = Some r ->
  obstacle_is_solid r = true ->
  In o (obstacle m) -> ignore_obstacle o lf = false ->
  obstacle_got_collision o x1 y1 x2 y2 = true ->
  obstacle_is_solid o = true ->
  match mm with
  | MM_FLOOR | MM_RIGHTWALL =>
      sensed_height mm x1 y1 x2 y2 r <= sensed_height mm x1 y1 x2 y2 o
  | MM_CEILING | MM_LEFTWALL =>
      sensed_height mm x1 y1 x2 y2 o <= sensed_height mm x1 y1 x2 y2 r
  end.
Proof.
  intros H Hr Ho Hi Hc Hs. apply scan_result in H as [_ Hbest].
  destruct (Hbest o) as [[_ F] | [_ Hh]]; [apply candidate_iff; auto | congruence |].
  rewrite Hr in Hh. destruct mm; exact Hh.
Qed.

(** X4: when the obstacle returned is a one-way platform, every obstacle
    hit is a one-way platform and the one returned is the shortest: its
    sensed height is the greatest one in FLOOR and RIGHT_WALL mode, the
    least one in CEILING and LEFT_WALL mode. *)
Theorem get_best_obstacle_at_shortest_one_way m x1 y1 x2 y2 mm lf r o :
  obstaclemap_get_best_obstacle_at m x1 y1 x2 y2 mm lf = Some r ->
  obstacle_is_solid r = false ->
  In o (obstacle m) -> ignore_obstacle o lf = false ->
  obstacle_got_collision o x1 y1 x2 y2 = true ->
  obstacle_is_solid o = false /\
  match mm with
  | MM_FLOOR | MM_RIGHTWALL =>
      sensed_height mm x1 y1 x2 y2 o <= sensed_height mm x1 y1 x2 y2 r
  | MM_CEILING | MM_LEFTWALL =>
      sensed_height mm x1 y1 x2 y2 r <= sensed_height mm x1 y1 x2 y2 o
  end.
Proof.
  intros H Hr Ho Hi Hc. apply scan_result in H as [_ Hbest].
  destruct (Hbest o) as [[F _] | [E Hh]]; [apply candidate_iff; auto | congruence |].
  split; [congruence |].
  rewrite Hr in Hh. destruct mm; exact Hh.
Qed.

(** X5: insertion order only matters on ties.  If two maps hold the same
    obstacles in different orders and no two distinct obstacles hit by the
    probe have both the same solidity and the same sensed height, the
    best-obstacle query gives the same answer on both. *)
Theorem get_best_obstacle_at_order_independent m1 m2 x1 y1 x2 y2 mm lf :
  Permutation (obstacle m1) (obstacle m2) ->
  (forall o1 o2,
      In o1 (obstacle m1) -> In o2 (obstacle m1) ->
      touches lf x1 y1 x2 y2 o1 = true -> touches lf x1 y1 x2 y2 o2 = true ->
      obstacle_is_solid o1 = obstacle_is_solid o2 ->
      sensed_height mm x1 y1 x2 y2 o1 = sensed_height mm x1 y1 x2 y2 o2 ->
      o1 = o2) ->
  obstaclemap_get_best_obstacle_at m1 x1 y1 x2 y2 mm lf =
  obstaclemap_get_best_obstacle_at m2 x1 y1 x2 y2 mm lf.
Proof.
  intros P Hinj.
  destruct (obstaclemap_get_best_obstacle_at m1 x1 y1 x2 y2 mm lf) as [r1 |] eqn:E1,
           (obstaclemap_get_best_obstacle_at m2 x1 y1 x2 y2 mm lf) as [r2 |] eqn:E2;
    trivial.
  - apply scan_result in E1 as [In1 B1]. apply scan_result in E2 as [In2 B2].
    apply filter_In in In1 as In1'. apply filter_In in In2 as In2'.
    destruct In1' as [R1 T1], In2' as [R2 T2].
    apply (Permutation_in _ (Permutation_sym P)) in R2.
    assert (C2 : In r2 (filter (touches lf x1 y1 x2 y2) (obstacle m1)))
      by (apply filter_In; auto).
    assert (C1 : In r1 (filter (touches lf x1 y1 x2 y2) (obstacle m2)))
      by (apply filter_In; split; [eapply Permutation_in; eauto | auto]).
    f_equal. apply Hinj; trivial;
      destruct (B1 r2 C2) as [[S1 S2] | [Es H12]],
               (B2 r1 C1) as [[S2' S1'] | [Es' H21]];
      try congruence.
    rewrite <- Es in H21.
    destruct (lesser_wins mm (obstacle_is_solid r1)); lia.
  - apply scan_result in E1 as [In1 _]. apply filter_In in In1 as [R1 T1].
    unfold obstaclemap_get_best_obstacle_at in E2.
    apply scan_null_iff in E2 as [_ E2].
    rewrite (E2 r1) in T1; [discriminate | eapply Permutation_in; eauto].
  - apply scan_result in E2 as [In2 _]. apply filter_In in In2 as [R2 T2].
    unfold obstaclemap_get_best_obstacle_at in E1.
    apply scan_null_iff in E1 as [_ E1].
    rewrite (E1 r2) in T2; [discriminate |].
    eapply Permutation_in; [apply Permutation_sym |]; eauto.
Qed.

(** ** Adding obstacles *)

(** X6: registering one more obstacle updates the answer of the
    best-obstacle query by one tie-break: if the new obstacle passes the
    filter and collides with the probe, the answer becomes
    [pick_best_obstacle new old]; otherwise it does not change. *)
Theorem get_best_obstacle_at_add_obstacle m o x1 y1 x2 y2 mm lf :
  obstaclemap_get_best_obstacle_at (obstaclemap_add_obstacle m o)
    x1 y1 x2 y2 mm lf =
  if negb (ignore_obstacle o lf) && obstacle_got_collision o x1 y1 x2 y2
  then pick_best_obstacle (Some o)
         (obstaclemap_get_best_obstacle_at m x1 y1 x2 y2 mm lf) x1 y1 x2 y2 mm
  else obstaclemap_get_best_obstacle_at m x1 y1 x2 y2 mm lf.
Proof.
  unfold obstaclemap_get_best_obstacle_at, obstaclemap_add_obstacle, darray_push.
  cbn [obstacle]. rewrite fold_left_app. reflexivity.
Qed.

(** X7: registering one more obstacle can only turn the two existence
    queries from false to true: afterwards [obstaclemap_obstacle_exists]
    holds iff it held before or the new obstacle passes the filter and
    contains the point, and [obstaclemap_solid_exists] holds iff it held
    before or the new obstacle does so and is solid. *)
Theorem exists_queries_add_obstacle m o x y lf :
  obstaclemap_obstacle_exists (obstaclemap_add_obstacle m o) x y lf =
    obstaclemap_obstacle_exists m x y lf
    || (negb (ignore_obstacle o lf) && obstacle_got_collision o x y x y) /\
  obstaclemap_solid_exists (obstaclemap_add_obstacle m o) x y lf =
    obstaclemap_solid_exists m x y lf
    || (negb (ignore_obstacle o lf) && obstacle_got_collision o x y x y
        && obstacle_is_solid o).
Proof.
  unfold obstaclemap_obstacle_exists, obstaclemap_solid_exists,
    obstaclemap_add_obstacle, darray_push. cbn [obstacle].
  rewrite obstacle_exists_from_app, solid_exists_from_app. simpl.
  split; f_equal.
  - now destruct (negb (ignore_obstacle o lf) && obstacle_got_collision o x y x y).
  - now destruct (negb (ignore_obstacle o lf) && obstacle_got_collision o x y x y
                  && obstacle_is_solid o).
Qed.

(** X8: registering the same obstacle twice in a row changes no answer:
    the three queries cannot tell the second registration. *)
Theorem add_obstacle_twice m o :
  (forall x1 y1 x2 y2 mm lf,
      obstaclemap_get_best_obstacle_at
        (obstaclemap_add_obstacle (obstaclemap_add_obstacle m o) o)
        x1 y1 x2 y2 mm lf =
      obstaclemap_get_best_obstacle_at (obstaclemap_add_obstacle m o)
        x1 y1 x2 y2 mm lf) /\
  (forall x y lf,
      obstaclemap_obstacle_exists
        (obstaclemap_add_obstacle (obstaclemap_add_obstacle m o) o) x y lf =
      obstaclemap_obstacle_exists (obstaclemap_add_obstacle m o) x y lf) /\
  (forall x y lf,
      obstaclemap_solid_exists
        (obstaclemap_add_obstacle (obstaclemap_add_obstacle m o) o) x y lf =
      obstaclemap_solid_exists (obstaclemap_add_obstacle m o) x y lf).
Proof.
  split; [| split].
  - intros. unfold obstaclemap_get_best_obstacle_at, obstaclemap_add_obstacle,
      darray_push. cbn [obstacle]. rewrite !fold_left_app. cbn [fold_left].
    set (best := fold_left _ (obstacle m) None).
    unfold best_step. destruct (touches lf x1 y1 x2 y2 o); trivial.
    destruct (pick_best_obstacle_either (Some o) best x1 y1 x2 y2 mm) as [E | E].
    + rewrite E.
      destruct (pick_best_obstacle_either (Some o) (Some o) x1 y1 x2 y2 mm);
        assumption.
    + rewrite E. exact E.
  - intros. unfold obstaclemap_obstacle_exists, obstaclemap_add_obstacle,
      darray_push. cbn [obstacle]. rewrite !obstacle_exists_from_app.
    now destruct (obstacle_exists_from (obstacle m) x y lf),
                 (obstacle_exists_from [o] x y lf).
  - intros. unfold obstaclemap_solid_exists, obstaclemap_add_obstacle,
      darray_push. cbn [obstacle]. rewrite !solid_exists_from_app.
    now destruct (solid_exists_from (obstacle m) x y lf),
                 (solid_exists_from [o] x y lf).
Qed.

(** ** How the queries relate *)

(** X9: the point queries agree with the rectangle query on the degenerate
    rectangle [(x,y,x,y)], in every movement mode:
    [obstaclemap_obstacle_exists] is true iff the best-obstacle query
    returns an obstacle, and [obstaclemap_solid_exists] is true iff it
    returns a solid one. *)
Theorem exists_queries_agree_with_best m x y mm lf :
  (obstaclemap_obstacle_exists m x y lf = true <->
   obstaclemap_get_best_obstacle_at m x y x y mm lf <> None) /\
  (obstaclemap_solid_exists m x y lf = true <->
   exists r, obstaclemap_get_best_obstacle_at m x y x y mm lf = Some r
             /\ obstacle_is_solid r = true).
Proof.
  unfold obstaclemap_obstacle_exists, obstaclemap_solid_exists.
  rewrite obstacle_exists_from_true, solid_exists_from_true. split.
  - split.
    + intros (o & Ho & Hi & Hc) E.
      unfold obstaclemap_get_best_obstacle_at in E.
      apply scan_null_iff in E as [_ E].
      assert (T : touches lf x y x y o = true) by now apply touches_true.
      rewrite (E o Ho) in T. discriminate.
    + intros H.
      destruct (obstaclemap_get_best_obstacle_at m x y x y mm lf) as [r |] eqn:E;
        [| now elim H].
      apply scan_result in E as [Hin _]. apply candidate_iff in Hin. eauto.
  - split.
    + intros (o & Ho & Hi & Hc & Hs).
      destruct (obstaclemap_get_best_obstacle_at m x y x y mm lf) as [r |] eqn:E.
      * exists r. split; trivial.
        apply scan_result in E as [_ Hbest].
        destruct (Hbest o) as [[Hr _] | [Er _]];
          [apply candidate_iff; auto | |]; congruence.
      * unfold obstaclemap_get_best_obstacle_at in E.
        apply scan_null_iff in E as [_ E].
        assert (T : touches lf x y x y o = true) by now apply touches_true.
        rewrite (E o Ho) in T. discriminate.
    + intros (r & E & Hs). apply scan_result in E as [Hin _].
      apply candidate_iff in Hin. exists r. tauto.
Qed.

(** X10: the default filter hides nothing.  Whatever a query finds under
    some layer filter it also finds under [OL_DEFAULT]: both existence
    queries stay true, and the best-obstacle query still returns an
    obstacle. *)
Theorem default_filter_sees_more m x y x1 y1 x2 y2 mm lf :
  (obstaclemap_obstacle_exists m x y lf = true ->
   obstaclemap_obstacle_exists m x y OL_DEFAULT = true) /\
  (obstaclemap_solid_exists m x y lf = true ->
   obstaclemap_solid_exists m x y OL_DEFAULT = true) /\
  (obstaclemap_get_best_obstacle_at m x1 y1 x2 y2 mm lf <> None ->
   obstaclemap_get_best_obstacle_at m x1 y1 x2 y2 mm OL_DEFAULT <> None).
Proof.
  assert (D : forall o, ignore_obstacle o OL_DEFAULT = false).
  { intros o. unfold ignore_obstacle. now rewrite layer_neqb_refl. }
  unfold obstaclemap_obstacle_exists, obstaclemap_solid_exists.
  rewrite !obstacle_exists_from_true, !solid_exists_from_true.
  split; [| split].
  - intros (o & Ho & _ & Hc). exists o. auto.
  - intros (o & Ho & _ & Hc & Hs). exists o. auto.
  - intros H E. apply H. unfold obstaclemap_get_best_obstacle_at in *.
    apply scan_null_iff in E as [_ E]. apply scan_null_iff. split; trivial.
    intros o Ho. specialize (E o Ho). unfold touches in *.
    rewrite D in E. simpl in E. rewrite E. apply andb_false_r.
Qed.

(** X11: ties between two obstacles of the same solidity.  In a map holding
    exactly [o1] then [o2], both passing the filter and colliding with the
    probe, with the same solidity and the same sensed height, the
    first-inserted [o1] is returned where the comparison is the strict
    [ha < hb] (solid in FLOOR and RIGHT_WALL mode, one-way in CEILING and
    LEFT_WALL mode) and the later-inserted [o2] where it is [ha >= hb]. *)
Theorem tie_follows_comparison m (o1 o2 : obstacle_t) x1 y1 x2 y2 mm lf :
  obstacle m = [o1; o2] ->
  ignore_obstacle o1 lf = false -> ignore_obstacle o2 lf = false ->
  obstacle_got_collision o1 x1 y1 x2 y2 = true ->
  obstacle_got_collision o2 x1 y1 x2 y2 = true ->
  obstacle_is_solid o1 = obstacle_is_solid o2 ->
  sensed_height mm x1 y1 x2 y2 o1 = sensed_height mm x1 y1 x2 y2 o2 ->
  obstaclemap_get_best_obstacle_at m x1 y1 x2 y2 mm lf =
  match mm, obstacle_is_solid o1 with
  | MM_FLOOR, true | MM_RIGHTWALL, true => Some o1
  | MM_CEILING, true | MM_LEFTWALL, true => Some o2
  | MM_FLOOR, false | MM_RIGHTWALL, false => Some o2
  | MM_CEILING, false | MM_LEFTWALL, false => Some o1
  end.
Proof.
  intros Hm I1 I2 C1 C2 Es Eh.
  unfold obstaclemap_get_best_obstacle_at. rewrite Hm.
  cbn [fold_left]. unfold best_step, touches.
  rewrite I1, I2, C1, C2. cbn [negb andb].
  rewrite pick_best_obstacle_null_r.
  rewrite pick_best_obstacle_same_solidity by congruence.
  rewrite <- Es, Eh, Z.ltb_irrefl, (proj2 (Z.geb_le _ _) (Z.le_refl _)).
  destruct mm, (obstacle_is_solid o1); reflexivity.
Qed.

End ObstacleMapScan.


(** * Properties of the mobile menu *)

Module MobileMenuFacts.
Import MobileMenu.

Section Facts.
Context {env : MenuEnv}.
Implicit Types (sc : scene_t) (f : frame_t) (b i : button_id) (p : v2d_t).

(** ** One button at a time *)

Lemma button_set_button sc b e i :
  button (set_button sc b e) i = if button_id_eq_dec i b then e else button sc i.
Proof. reflexivity. Qed.

Lemma button_state_set_button_state sc b s i :
  button_state (button (set_button_state sc b s) i) =
  if button_id_eq_dec i b then s else button_state (button sc i).
Proof.
  unfold set_button_state. rewrite button_set_button.
  now destruct (button_id_eq_dec i b).
Qed.

Lemma button_state_update_button sc b i :
  button_state (button (update_button sc b) i) =
  if button_id_eq_dec i b
  then match button_state (button sc b) with
       | TRIGGERED => UNPRESSED
       | s => s
       end
  else button_state (button sc i).
Proof.
  unfold update_button, set_actor_animation, set_button_state, set_state.
  destruct (button_state (button sc b)) eqn:E; cbn;
    destruct (button_id_eq_dec i b) as [-> | n]; cbn; rewrite ?E; trivial;
    destruct (button_id_eq_dec b b); cbn; congruence.
Qed.

Lemma state_update_button sc b :
  state (update_button sc b) =
  match button_state (button sc b) with
  | TRIGGERED => TRIGGERED_STATE b
  | _ => state sc
  end.
Proof.
  unfold update_button. now destruct (button_state (button sc b)).
Qed.

Lemma touch_start_update_button sc b :
  touch_start (update_button sc b) = touch_start sc.
Proof.
  unfold update_button. now destruct (button_state (button sc b)).
Qed.

Lemma actor_animation_update_button sc b :
  actor_animation (button (update_button sc b) b) =
  ANIMATION_NUMBER (button_state (button (update_button sc b) b)).
Proof.
  unfold update_button, set_actor_animation, set_button_state, set_state.
  destruct (button_state (button sc b)) eqn:E; cbn;
    destruct (button_id_eq_dec b b); cbn; rewrite ?E; congruence.
Qed.

(** ** The loop of [update_waiting] over the four buttons *)

Lemma update_buttons_button_state sc i :
  button_state (button (fold_left update_button button_indices sc) i) =
  match button_state (button sc i) with
  | TRIGGERED => UNPRESSED
  | s => s
  end.
Proof.
  unfold button_indices. cbn [fold_left].
  rewrite !button_state_update_button.
  destruct i; cbn; reflexivity.
Qed.

(** The menu state after the loop: the TRIGGERED button of greatest index
    decides. *)
Lemma update_buttons_state sc :
  state (fold_left update_button button_indices sc) =
  match button_state (button sc BUTTON_INFO),
        button_state (button sc BUTTON_DEBUG),
        button_state (button sc BUTTON_SCREENSHOT),
        button_state (button sc BUTTON_BACK) with
  | TRIGGERED, _, _, _ => TRIGGERED_INFO
  | _, TRIGGERED, _, _ => TRIGGERED_DEBUG
  | _, _, TRIGGERED, _ => TRIGGERED_SCREENSHOT
  | _, _, _, TRIGGERED => TRIGGERED_BACK
  | _, _, _, _ => state sc
  end.
Proof.
  unfold button_indices. cbn [fold_left].
  rewrite !state_update_button, !button_state_update_button. cbn.
  destruct (button_state (button sc BUTTON_INFO)),
           (button_state (button sc BUTTON_DEBUG)),
           (button_state (button sc BUTTON_SCREENSHOT)),
           (button_state (button sc BUTTON_BACK)); reflexivity.
Qed.

Lemma update_buttons_touch_start sc :
  touch_start (fold_left update_button button_indices sc) = touch_start sc.
Proof.
  unfold button_indices. cbn [fold_left].
  now rewrite !touch_start_update_button.
Qed.

(** ** The touch handlers *)

Lemma button_neqb_false (b p : mobilemenu_button_t) :
  button_neqb b p = false <-> b = p.
Proof.
  destruct b as [b |], p as [p |]; simpl; try (split; congruence).
  destruct (button_id_eq_dec b p); split; congruence.
Qed.

Lemma button_neqb_true (b p : mobilemenu_button_t) :
  button_neqb b p = true <-> b <> p.
Proof.
  rewrite <- not_false_iff_true, button_neqb_false. tauto.
Qed.

Lemma on_touch_start_button_state sc p i :
  button_state (button (on_touch_start sc p) i) =
  match button_at p with
  | Some b => if button_id_eq_dec i b then PRESSED
              else button_state (button sc i)
  | None => button_state (button sc i)
  end.
Proof.
  unfold on_touch_start. destruct (button_at p); trivial.
  apply button_state_set_button_state.
Qed.

Lemma on_touch_end_skips sc ts te :
  button_at ts = None \/ button_at ts <> button_at te ->
  on_touch_end sc ts te = sc.
Proof.
  intros H. unfold on_touch_end, BUTTON_NONE.
  destruct H as [-> | H]; [reflexivity |].
  apply button_neqb_true in H. rewrite H. now rewrite orb_true_r.
Qed.

Lemma on_touch_end_fires sc ts te b :
  button_at ts = Some b -> button_at te = Some b ->
  (forall i, button_state (button (on_touch_end sc ts te) i) =
             match button_state (button sc i) with
             | PRESSED => TRIGGERED
             | _ => UNPRESSED
             end) /\
  state (on_touch_end sc ts te) = state sc /\
  touch_start (on_touch_end sc ts te) = touch_start sc.
Proof.
  intros Hs He. unfold on_touch_end, BUTTON_NONE. rewrite Hs, He.
  rewrite (proj2 (button_neqb_false (Some b) (Some b)) eq_refl).
  cbn [button_neqb negb orb].
  assert (step : forall acc i,
             match button_state (button acc i) with
             | PRESSED => set_button_state acc i TRIGGERED
             | _ => set_button_state acc i UNPRESSED
             end =
             set_button_state acc i
               match button_state (button acc i) with
               | PRESSED => TRIGGERED
               | _ => UNPRESSED
               end).
  { intros acc i. now destruct (button_state (button acc i)). }
  unfold button_indices. cbn [fold_left]. rewrite !step.
  split; [| split; reflexivity].
  intros i. rewrite !button_state_set_button_state.
  destruct i; cbn; reflexivity.
Qed.

Lemma on_touch_move_skips sc ts tc :
  button_at ts = None \/ button_at ts = button_at tc ->
  on_touch_move sc ts tc = sc.
Proof.
  intros H. unfold on_touch_move, BUTTON_NONE.
  destruct H as [-> | H]; [reflexivity |].
  apply button_neqb_false in H. rewrite H. now rewrite orb_true_r.
Qed.

Lemma on_touch_move_cancels sc ts tc b :
  button_at ts = Some b -> button_at tc <> Some b ->
  (forall i, button_state (button (on_touch_move sc ts tc) i) = UNPRESSED) /\
  state (on_touch_move sc ts tc) = state sc /\
  touch_start (on_touch_move sc ts tc) = touch_start sc.
Proof.
  intros Hs Hc. unfold on_touch_move, BUTTON_NONE. rewrite Hs.
  assert (N : button_neqb (Some b) (button_at tc) = true)
    by (apply button_neqb_true; congruence).
  rewrite N. cbn [button_neqb negb orb].
  unfold button_indices. cbn [fold_left].
  split; [| split; reflexivity].
  intros i. rewrite !button_state_set_button_state.
  destruct i; cbn; reflexivity.
Qed.

(** ** One frame of [update_waiting] without the BACK key *)

(** The buttons and the menu state after the loop over the buttons, when
    no button is TRIGGERED before it. *)
Lemma update_buttons_quiet sc :
  (forall i, button_state (button sc i) <> TRIGGERED) ->
  (forall i, button_state (button (fold_left update_button button_indices sc) i)
             = button_state (button sc i)) /\
  state (fold_left update_button button_indices sc) = state sc.
Proof.
  intros H. split.
  - intros i. rewrite update_buttons_button_state.
    specialize (H i). now destruct (button_state (button sc i)).
  - rewrite update_buttons_state.
    pose proof (H BUTTON_INFO). pose proof (H BUTTON_DEBUG).
    pose proof (H BUTTON_SCREENSHOT). pose proof (H BUTTON_BACK).
    destruct (button_state (button sc BUTTON_INFO)),
             (button_state (button sc BUTTON_DEBUG)),
             (button_state (button sc BUTTON_SCREENSHOT)),
             (button_state (button sc BUTTON_BACK)); congruence.
Qed.

(** The finger goes down on button [b]. *)
Lemma waiting_finger_down sc f b :
  fire1_up f = false -> fire1_pressed f = true ->
  button_at (mouse_position f) = Some b -> back_pressed f = false ->
  (forall i, button_state (button sc i) <> TRIGGERED) ->
  (forall i, button_state (button (update_waiting sc f) i) =
             if button_id_eq_dec i b then PRESSED
             else button_state (button sc i)) /\
  state (update_waiting sc f) = state sc /\
  touch_start (update_waiting sc f) = mouse_position f.
Proof.
  intros Hu Hp Hb Hk Hq. unfold update_waiting, handle_touch_input.
  rewrite Hu, Hp, Hk. cbn [touch_start].
  set (sc1 := on_touch_start _ _).
  assert (S1 : forall i, button_state (button sc1 i) =
                         if button_id_eq_dec i b then PRESSED
                         else button_state (button sc i)).
  { intros i. unfold sc1. rewrite on_touch_start_button_state, Hb. reflexivity. }
  assert (Q1 : forall i, button_state (button sc1 i) <> TRIGGERED).
  { intros i. rewrite S1. destruct (button_id_eq_dec i b); [discriminate | auto]. }
  destruct (update_buttons_quiet sc1 Q1) as [B St].
  split; [| split].
  - intros i. now rewrite B, S1.
  - rewrite St. unfold sc1, on_touch_start. now rewrite Hb.
  - rewrite update_buttons_touch_start. unfold sc1, on_touch_start.
    now rewrite Hb.
Qed.

(** The finger stays down on the button it went down on, or no touch
    event is reported at all. *)
Lemma waiting_finger_still sc f :
  fire1_up f = false -> fire1_pressed f = false ->
  fire1_down f = false \/ button_at (touch_start sc) = button_at (mouse_position f) ->
  back_pressed f = false ->
  (forall i, button_state (button sc i) <> TRIGGERED) ->
  (forall i, button_state (button (update_waiting sc f) i) =
             button_state (button sc i)) /\
  state (update_waiting sc f) = state sc /\
  touch_start (update_waiting sc f) = touch_start sc.
Proof.
  intros Hu Hp Hd Hk Hq. unfold update_waiting, handle_touch_input.
  rewrite Hu, Hp, Hk.
  assert (E : (if fire1_down f
               then on_touch_move sc (touch_start sc) (mouse_position f)
               else sc) = sc).
  { destruct (fire1_down f); trivial.
    apply on_touch_move_skips. destruct Hd as [Hd | Hd]; [discriminate | auto]. }
  rewrite E. destruct (update_buttons_quiet sc Hq) as [B St].
  split; [exact B | split; [exact St | apply update_buttons_touch_start]].
Qed.

(** The finger goes up over the button it went down on: every button
    ends the frame UNPRESSED, and the menu state is decided by the PRESSED
    button of greatest index. *)
Lemma waiting_finger_up_fires sc f b :
  fire1_up f = true ->
  button_at (touch_start sc) = Some b -> button_at (mouse_position f) = Some b ->
  back_pressed f = false ->
  (forall i, button_state (button (update_waiting sc f) i) = UNPRESSED) /\
  state (update_waiting sc f) =
  match button_state (button sc BUTTON_INFO),
        button_state (button sc BUTTON_DEBUG),
        button_state (button sc BUTTON_SCREENSHOT),
        button_state (button sc BUTTON_BACK) with
  | PRESSED, _, _, _ => TRIGGERED_INFO
  | _, PRESSED, _, _ => TRIGGERED_DEBUG
  | _, _, PRESSED, _ => TRIGGERED_SCREENSHOT
  | _, _, _, PRESSED => TRIGGERED_BACK
  | _, _, _, _ => state sc
  end.
Proof.
  intros Hu Hs He Hk. unfold update_waiting, handle_touch_input.
  rewrite Hu, Hk. cbn [touch_start touch_end].
  set (sc0 := mk_scene _ _ _ _ _).
  destruct (on_touch_end_fires sc0 (touch_start sc) (mouse_position f) b Hs He)
    as (B & St & _).
  split.
  - intros i. rewrite update_buttons_button_state, B. cbn [sc0 button].
    now destruct (button_state (button sc i)).
  - rewrite update_buttons_state, !B, St. cbn [sc0 button state].
    destruct (button_state (button sc BUTTON_INFO)),
             (button_state (button sc BUTTON_DEBUG)),
             (button_state (button sc BUTTON_SCREENSHOT)),
             (button_state (button sc BUTTON_BACK)); reflexivity.
Qed.

(** The finger goes up elsewhere than over the button it went down on. *)
Lemma waiting_finger_up_skips sc f :
  fire1_up f = true ->
  button_at (touch_start sc) = None
  \/ button_at (touch_start sc) <> button_at (mouse_position f) ->
  back_pressed f = false ->
  (forall i, button_state (button sc i) <> TRIGGERED) ->
  (forall i, button_state (button (update_waiting sc f) i) =
             button_state (button sc i)) /\
  state (update_waiting sc f) = state sc /\
  touch_start (update_waiting sc f) = touch_start sc.
Proof.
  intros Hu Hs Hk Hq. unfold update_waiting, handle_touch_input.
  rewrite Hu, Hk. cbn [touch_start touch_end].
  rewrite on_touch_end_skips by exact Hs.
  set (sc0 := mk_scene _ _ _ _ _).
  destruct (update_buttons_quiet sc0 Hq) as [B St].
  split; [exact B | split; [exact St |]].
  now rewrite update_buttons_touch_start.
Qed.

(** ** Theorems *)

(** X12: [button_at] returns [BUTTON_NONE] exactly when no button contains
    the position, and otherwise a button that contains it, none of the
    buttons of lesser index containing it. *)
Theorem button_at_spec p :
  (button_at p = BUTTON_NONE <-> forall i, inside_button i p = false) /\
  (forall b, button_at p = Some b ->
             inside_button b p = true /\
             forall i, button_index i < button_index b ->
                       inside_button i p = false).
Proof.
  unfold button_at, button_indices, BUTTON_NONE. cbn [button_at_from]. split.
  - split.
    + intros H i.
      destruct (inside_button BUTTON_BACK p) eqn:E0; [discriminate |].
      destruct (inside_button BUTTON_SCREENSHOT p) eqn:E1; [discriminate |].
      destruct (inside_button BUTTON_DEBUG p) eqn:E2; [discriminate |].
      destruct (inside_button BUTTON_INFO p) eqn:E3; [discriminate |].
      destruct i; assumption.
    + intros H. now rewrite !H.
  - intros b.
    destruct (inside_button BUTTON_BACK p) eqn:E0;
      [| destruct (inside_button BUTTON_SCREENSHOT p) eqn:E1;
         [| destruct (inside_button BUTTON_DEBUG p) eqn:E2;
            [| destruct (inside_button BUTTON_INFO p) eqn:E3]]];
      intros [= <-] || intros [=];
      (split; [assumption |]); intros i Hlt; destruct i; cbn in Hlt;
      (assumption || lia).
Qed.

Lemma mobilemenu_update_waiting sc f :
  state sc = WAITING -> mobilemenu_update sc f = update_waiting sc f.
Proof. unfold mobilemenu_update. now intros ->. Qed.

Lemma run_app sc (fs gs : list frame_t) :
  run sc (fs ++ gs) = run (run sc fs) gs.
Proof. apply fold_left_app. Qed.

Lemma run_cons sc f (fs : list frame_t) :
  run sc (f :: fs) = run (mobilemenu_update sc f) fs.
Proof. reflexivity. Qed.

Lemma run_single sc f : run sc [f] = mobilemenu_update sc f.
Proof. reflexivity. Qed.

(** While the finger rests on the button it went down on, that button and
    only that button is PRESSED. *)
Lemma run_rests_on sc b (holds : list frame_t) :
  Forall (rests_on b) holds ->
  state sc = WAITING -> button_at (touch_start sc) = Some b ->
  (forall i, button_state (button sc i) =
             if button_id_eq_dec i b then PRESSED else UNPRESSED) ->
  state (run sc holds) = WAITING /\
  button_at (touch_start (run sc holds)) = Some b /\
  (forall i, button_state (button (run sc holds) i) =
             if button_id_eq_dec i b then PRESSED else UNPRESSED).
Proof.
  intros H. revert sc. induction H as [| h holds (Hu & Hp & Hb & Hk) _ IH];
    intros sc St Ts Bs; [auto |].
  rewrite run_cons, mobilemenu_update_waiting by exact St.
  destruct (waiting_finger_still sc h Hu Hp) as (B' & St' & Ts'); trivial.
  - right. congruence.
  - intros i. rewrite Bs. now destruct (button_id_eq_dec i b).
  - apply IH; try congruence. intros i. now rewrite B', Bs.
Qed.

(** X13: a tap works.  From the waiting menu with every button UNPRESSED,
    when the finger goes down on button [b], rests on it for any number of
    frames and goes up over it, the menu enters the triggered state of
    [b] with every button back to UNPRESSED; on the next frame it starts
    to disappear for BACK and DEBUG and goes back to waiting for SCREENSHOT
    and INFO. *)
Theorem tap_triggers_button sc b (down up next : frame_t) (holds : list frame_t) :
  state sc = WAITING ->
  (forall i, button_state (button sc i) = UNPRESSED) ->
  presses b down -> Forall (rests_on b) holds -> releases_over b up ->
  state (run sc (down :: holds ++ [up])) = TRIGGERED_STATE b /\
  (forall i, button_state (button (run sc (down :: holds ++ [up])) i)
             = UNPRESSED) /\
  state (run sc (down :: holds ++ [up; next])) =
  match b with
  | BUTTON_BACK | BUTTON_DEBUG => DISAPPEARING
  | BUTTON_SCREENSHOT | BUTTON_INFO => WAITING
  end.
Proof.
  intros St Bs (Du & Dp & Db & Dk) Hh (Uu & Ub & Uk).
  assert (K : state (run sc (down :: holds ++ [up])) = TRIGGERED_STATE b /\
              forall i, button_state (button (run sc (down :: holds ++ [up])) i)
                        = UNPRESSED).
  { rewrite run_cons, run_app, run_single.
    rewrite (mobilemenu_update_waiting sc) by exact St.
    destruct (waiting_finger_down sc down b Du Dp Db Dk) as (B1 & St1 & Ts1).
    { intros i. now rewrite Bs. }
    set (sc1 := update_waiting sc down) in *.
    destruct (run_rests_on sc1 b holds Hh) as (St2 & Ts2 & B2); try congruence.
    { intros i. rewrite B1, Bs. reflexivity. }
    set (sc2 := run sc1 holds) in *.
    rewrite mobilemenu_update_waiting by exact St2.
    destruct (waiting_finger_up_fires sc2 up b Uu Ts2 Ub Uk) as (B3 & St3).
    split; [| exact B3].
    rewrite St3, !B2, St2. destruct b; reflexivity. }
  destruct K as [K1 K2]. split; [exact K1 | split; [exact K2 |]].
  replace (down :: holds ++ [up; next])
    with ((down :: holds ++ [up]) ++ [next])
    by (cbn [app]; rewrite <- app_assoc; reflexivity).
  rewrite run_app, run_single. unfold mobilemenu_update at 1.
  rewrite K1. destruct b; reflexivity.
Qed.

(** Without a new press and without the BACK key, the idle menu stays
    idle, wherever the last touch started. *)
Lemma waiting_idle_stays_idle sc f :
  state sc = WAITING ->
  (forall i, button_state (button sc i) = UNPRESSED) ->
  fire1_pressed f = false -> back_pressed f = false ->
  state (update_waiting sc f) = WAITING /\
  (forall i, button_state (button (update_waiting sc f) i) = UNPRESSED).
Proof.
  intros St Bs Hp Hk.
  assert (Q : forall i, button_state (button sc i) <> TRIGGERED)
    by (intros i; now rewrite Bs).
  destruct (fire1_up f) eqn:Hu.
  - destruct (button_at (touch_start sc)) as [b |] eqn:Ts.
    + destruct (button_neqb (Some b) (button_at (mouse_position f))) eqn:N.
      * apply button_neqb_true in N.
        destruct (waiting_finger_up_skips sc f Hu) as (B & S' & _); auto.
        { right. congruence. }
        split; [congruence | intros i; now rewrite B].
      * apply button_neqb_false in N. symmetry in N.
        destruct (waiting_finger_up_fires sc f b Hu Ts N Hk) as (B & S').
        split; [| exact B]. rewrite S', !Bs. exact St.
    + destruct (waiting_finger_up_skips sc f Hu) as (B & S' & _); auto.
      split; [congruence | intros i; now rewrite B].
  - unfold update_waiting, handle_touch_input. rewrite Hu, Hp, Hk.
    set (sc1 := if fire1_down f then _ else sc).
    assert (B1 : (forall i, button_state (button sc1 i) = UNPRESSED)
                 /\ state sc1 = WAITING).
    { unfold sc1. destruct (fire1_down f); [| auto].
      destruct (button_at (touch_start sc)) as [b |] eqn:Ts.
      - destruct (button_neqb (Some b) (button_at (mouse_position f))) eqn:N.
        + apply button_neqb_true in N.
          destruct (on_touch_move_cancels sc (touch_start sc)
                      (mouse_position f) b Ts) as (B & S' & _);
            [congruence | split; [exact B | congruence]].
        + apply button_neqb_false in N.
          rewrite on_touch_move_skips by (right; congruence). auto.
      - rewrite on_touch_move_skips by (left; exact Ts). auto. }
    destruct B1 as [B1 S1].
    destruct (update_buttons_quiet sc1) as [B2 S2].
    { intros i. now rewrite B1. }
    split; [congruence | intros i; now rewrite B2].
Qed.

(** X14: sliding off cancels.  When the finger goes down on button [b] and
    is next seen, still down, elsewhere than over [b], every button is
    UNPRESSED again, and no later frame without a new press (and without
    the BACK key) triggers anything: the menu stays in the waiting state
    with every button UNPRESSED, wherever the finger goes up. *)
Theorem drag_off_cancels sc b (down off : frame_t) (later : list frame_t) :
  state sc = WAITING ->
  (forall i, button_state (button sc i) = UNPRESSED) ->
  presses b down ->
  fire1_up off = false -> fire1_pressed off = false -> fire1_down off = true ->
  button_at (mouse_position off) <> Some b -> back_pressed off = false ->
  Forall (fun f => fire1_pressed f = false /\ back_pressed f = false) later ->
  state (run sc (down :: off :: later)) = WAITING /\
  (forall i, button_state (button (run sc (down :: off :: later)) i)
             = UNPRESSED).
Proof.
  intros St Bs (Du & Dp & Db & Dk) Ou Op Od Ob Ok Hl.
  rewrite !run_cons, (mobilemenu_update_waiting sc) by exact St.
  destruct (waiting_finger_down sc down b Du Dp Db Dk) as (B1 & St1 & Ts1).
  { intros i. now rewrite Bs. }
  set (sc1 := update_waiting sc down) in *.
  rewrite mobilemenu_update_waiting by congruence.
  assert (I2 : state (update_waiting sc1 off) = WAITING /\
               forall i, button_state (button (update_waiting sc1 off) i)
                         = UNPRESSED).
  { unfold update_waiting, handle_touch_input. rewrite Ou, Op, Od, Ok.
    destruct (on_touch_move_cancels sc1 (touch_start sc1)
                (mouse_position off) b) as (B & S' & _);
      [congruence | exact Ob |].
    destruct (update_buttons_quiet
                (on_touch_move sc1 (touch_start sc1) (mouse_position off)))
      as [B2 S2].
    { intros i. now rewrite B. }
    split; [congruence | intros i; now rewrite B2]. }
  destruct I2 as [S2 B2]. set (sc2 := update_waiting sc1 off) in *.
  clearbody sc2. clear - S2 B2 Hl. revert sc2 S2 B2.
  induction Hl as [| f later [Fp Fk] _ IH]; intros sc2 S2 B2; [auto |].
  rewrite run_cons, mobilemenu_update_waiting by exact S2.
  destruct (waiting_idle_stays_idle sc2 f S2 B2 Fp Fk) as [S3 B3].
  now apply IH.
Qed.

(** X15: a press can outlive its touch.  When the finger goes down on
    button [b] and goes up elsewhere on the very next frame, [b] is left
    PRESSED and the menu keeps waiting.  A later tap on another button [c]
    then triggers both buttons, and the action taken is that of whichever
    of [b] and [c] has the greater index in the array, not necessarily the
    button tapped. *)
Theorem stale_press_triggers_by_index sc b c (down1 up1 down2 up2 : frame_t) :
  state sc = WAITING ->
  (forall i, button_state (button sc i) = UNPRESSED) ->
  presses b down1 ->
  fire1_up up1 = true -> button_at (mouse_position up1) <> Some b ->
  back_pressed up1 = false ->
  c <> b -> presses c down2 -> releases_over c up2 ->
  state (run sc [down1; up1]) = WAITING /\
  button_state (button (run sc [down1; up1]) b) = PRESSED /\
  state (run sc [down1; up1; down2; up2]) =
    TRIGGERED_STATE (if button_index c <? button_index b then b else c).
Proof.
  intros St Bs (Du & Dp & Db & Dk) Uu Ub Uk Hcb (Du2 & Dp2 & Db2 & Dk2)
    (Uu2 & Ub2 & Uk2).
  rewrite !run_cons. cbn [run fold_left].
  rewrite (mobilemenu_update_waiting sc) by exact St.
  destruct (waiting_finger_down sc down1 b Du Dp Db Dk) as (B1 & St1 & Ts1).
  { intros i. now rewrite Bs. }
  set (sc1 := update_waiting sc down1) in *.
  rewrite (mobilemenu_update_waiting sc1) by congruence.
  destruct (waiting_finger_up_skips sc1 up1 Uu) as (B2 & St2 & Ts2); trivial.
  { right. rewrite Ts1, Db. congruence. }
  { intros i. rewrite B1, Bs. now destruct (button_id_eq_dec i b). }
  set (sc2 := update_waiting sc1 up1) in *.
  assert (Bs2 : forall i, button_state (button sc2 i) =
                          if button_id_eq_dec i b then PRESSED else UNPRESSED).
  { intros i. now rewrite B2, B1, Bs. }
  split; [congruence | split].
  { rewrite Bs2. now destruct (button_id_eq_dec b b). }
  rewrite (mobilemenu_update_waiting sc2) by congruence.
  destruct (waiting_finger_down sc2 down2 c Du2 Dp2 Db2 Dk2) as (B3 & St3 & Ts3).
  { intros i. rewrite Bs2. now destruct (button_id_eq_dec i b). }
  set (sc3 := update_waiting sc2 down2) in *.
  rewrite (mobilemenu_update_waiting sc3) by congruence.
  destruct (waiting_finger_up_fires sc3 up2 c Uu2) as (_ & St4); trivial.
  { now rewrite Ts3. }
  rewrite St4, !B3, !Bs2.
  destruct b, c; try (now elim Hcb); reflexivity.
Qed.

Lemma button_state_set_actor_alpha sc b alpha i :
  button_state (button (set_actor_alpha sc b alpha) i) =
  button_state (button sc i).
Proof.
  unfold set_actor_alpha. rewrite button_set_button.
  now destruct (button_id_eq_dec i b) as [-> |].
Qed.

Lemma button_state_update_not_waiting sc f i :
  state sc <> WAITING ->
  button_state (button (mobilemenu_update sc f) i) = button_state (button sc i).
Proof.
  intros H. unfold mobilemenu_update.
  destruct (state sc); try reflexivity; [| now elim H |].
  - unfold update_appearing, button_indices. cbn [fold_left].
    destruct (f_eqb _ _); cbn [set_state button];
      now rewrite !button_state_set_actor_alpha.
  - unfold update_disappearing, button_indices. cbn [fold_left].
    destruct (f_eqb _ _); cbn [button];
      now rewrite !button_state_set_actor_alpha.
Qed.

(** X16: touches only count while the menu waits.  In every other menu
    state (appearing, disappearing, or one of the four triggered states)
    an update changes no button state, whatever the input of the frame. *)
Theorem input_ignored_unless_waiting sc f i :
  state sc <> WAITING ->
  button_state (button (mobilemenu_update sc f) i) = button_state (button sc i).
Proof.
  intros H. unfold mobilemenu_update.
  destruct (state sc) eqn:St; try reflexivity; [| now elim H |].
  - (* APPEARING: only the alpha of the actors is written *)
    unfold update_appearing, button_indices. cbn [fold_left].
    destruct (f_eqb _ _); cbn [set_state button];
      now rewrite !button_state_set_actor_alpha.
  - (* DISAPPEARING: likewise *)
    unfold update_disappearing, button_indices. cbn [fold_left].
    destruct (f_eqb _ _); cbn [button];
      now rewrite !button_state_set_actor_alpha.
Qed.

Lemma state_set_actor_alpha sc b alpha :
  state (set_actor_alpha sc b alpha) = state sc.
Proof. reflexivity. Qed.

(** X17: disappearing is final.  Once the menu state is DISAPPEARING it
    stays so over any sequence of frames, whatever their input (touches,
    BACK key, frame delta), and the button states do not change any more. *)
Theorem disappearing_is_final sc (fs : list frame_t) :
  state sc = DISAPPEARING ->
  state (run sc fs) = DISAPPEARING /\
  (forall i, button_state (button (run sc fs) i) = button_state (button sc i)).
Proof.
  revert sc. induction fs as [| f fs IH]; intros sc St; [auto |].
  rewrite run_cons.
  assert (S1 : state (mobilemenu_update sc f) = DISAPPEARING).
  { unfold mobilemenu_update. rewrite St.
    unfold update_disappearing. now destruct (f_eqb _ _). }
  destruct (IH _ S1) as (S2 & B2).
  split; [exact S2 |].
  intros i. rewrite B2. apply button_state_update_not_waiting. congruence.
Qed.

Lemma button_update_button_other sc b i :
  i <> b -> button (update_button sc b) i = button sc i.
Proof.
  intros H. unfold update_button, set_actor_animation, set_button_state, set_state.
  destruct (button_state (button sc b)); cbn;
    destruct (button_id_eq_dec i b); congruence.
Qed.

Lemma update_buttons_animation sc i :
  actor_animation (button (fold_left update_button button_indices sc) i) =
  ANIMATION_NUMBER
    (button_state (button (fold_left update_button button_indices sc) i)).
Proof.
  unfold button_indices. cbn [fold_left].
  destruct i;
    rewrite ?button_update_button_other by discriminate;
    apply actor_animation_update_button.
Qed.

(** X18: TRIGGERED does not last.  After an update of the waiting menu,
    whatever the input, no button is TRIGGERED, and the animation shown by
    each button is number 1 if the button is PRESSED and number 0
    otherwise. *)
Theorem waiting_update_settles_buttons sc f i :
  state sc = WAITING ->
  button_state (button (mobilemenu_update sc f) i) <> TRIGGERED /\
  actor_animation (button (mobilemenu_update sc f) i) =
  match button_state (button (mobilemenu_update sc f) i) with
  | PRESSED => 1
  | _ => 0
  end.
Proof.
  intros St. rewrite mobilemenu_update_waiting by exact St.
  unfold update_waiting. set (sc1 := handle_touch_input sc f).
  pose proof (update_buttons_button_state sc1 i) as B.
  pose proof (update_buttons_animation sc1 i) as A.
  set (sc2 := fold_left update_button button_indices sc1) in *.
  clearbody sc2.
  assert (E : button (if back_pressed f
                      then set_state sc2 (TRIGGERED_STATE BUTTON_BACK)
                      else sc2) i = button sc2 i)
    by (destruct (back_pressed f); reflexivity).
  rewrite E, A, B.
  destruct (button_state (button sc1 i)); split; (discriminate || reflexivity).
Qed.

(** X19: the BACK key closes the menu.  In the waiting menu a frame with
    the BACK key pressed ends in the state TRIGGERED_BACK whatever the
    touch input of that frame, even when a button has just been triggered
    by a touch, and the next frame starts the disappearing. *)
Theorem back_key_closes_menu sc f next :
  state sc = WAITING -> back_pressed f = true ->
  state (run sc [f]) = TRIGGERED_BACK /\
  state (run sc [f; next]) = DISAPPEARING.
Proof.
  intros St Hk.
  assert (S1 : state (mobilemenu_update sc f) = TRIGGERED_BACK).
  { rewrite mobilemenu_update_waiting by exact St.
    unfold update_waiting. now rewrite Hk. }
  split; [exact S1 |].
  rewrite run_cons, run_single. unfold mobilemenu_update at 1. now rewrite S1.
Qed.

End Facts.
End MobileMenuFacts.


(** * Properties of the time manager *)

Module TimerFacts.
Import Timer.

Section Facts.
Context {dbl : DoubleAPI}.
Implicit Types (t : timer_t) (now : double).

Lemma timer_update_paused t now :
  is_paused t = true ->
  timer_update t now =
  mk_timer (start_time t) (current_time t) d_zero d_zero (frames t) true
           (pause_duration t) (pause_start_time t).
Proof. intros H. unfold timer_update. now rewrite H. Qed.

(** X20: a paused time manager is frozen.  Over any sequence of updates
    made while paused, the frame counter, the elapsed time and the pause
    bookkeeping do not move, and after the first of these updates both
    deltas read 0.0. *)
Theorem paused_updates_freeze t (nows : list double) :
  is_paused t = true ->
  let t' := fold_left timer_update nows t in
  timer_get_frames t' = timer_get_frames t /\
  timer_get_elapsed t' = timer_get_elapsed t /\
  is_paused t' = true /\
  start_time t' = start_time t /\
  pause_duration t' = pause_duration t /\
  pause_start_time t' = pause_start_time t /\
  (nows <> [] ->
   timer_get_delta t' = d_zero /\ timer_get_smooth_delta t' = d_zero).
Proof.
  intros Hp. cbv zeta.
  assert (G : forall ns u, is_paused u = true ->
                frames (fold_left timer_update ns u) = frames u /\
                current_time (fold_left timer_update ns u) = current_time u /\
                is_paused (fold_left timer_update ns u) = true /\
                start_time (fold_left timer_update ns u) = start_time u /\
                pause_duration (fold_left timer_update ns u) = pause_duration u /\
                pause_start_time (fold_left timer_update ns u) = pause_start_time u /\
                (delta_time u = d_zero -> smooth_delta_time u = d_zero ->
                 delta_time (fold_left timer_update ns u) = d_zero /\
                 smooth_delta_time (fold_left timer_update ns u) = d_zero)).
  { induction ns as [| n ns IH]; intros u Hu; cbn [fold_left]; [tauto |].
    rewrite timer_update_paused by exact Hu.
    destruct (IH (mk_timer (start_time u) (current_time u) d_zero d_zero
                           (frames u) true (pause_duration u)
                           (pause_start_time u)) eq_refl)
      as (A & B & C & D & E & F & H).
    cbn in A, B, C, D, E, F, H. repeat split; try assumption; intros;
      now apply H. }
  unfold timer_get_frames, timer_get_elapsed, timer_get_delta,
    timer_get_smooth_delta.
  destruct (G nows t Hp) as (A & B & C & D & E & F & _).
  repeat split; try assumption;
    destruct nows as [| n ns]; try congruence; cbn [fold_left];
    rewrite timer_update_paused by exact Hp;
    apply (G ns (mk_timer (start_time t) (current_time t) d_zero d_zero
                          (frames t) true (pause_duration t)
                          (pause_start_time t)) eq_refl); reflexivity.
Qed.

(** X21: the delta is clamped.  After an update of a running time manager
    neither [delta < MINIMUM_DELTA] nor [delta > MAXIMUM_DELTA] holds,
    whatever the clock reading, provided the two bounds do not compare less
    than themselves and the maximum does not compare less than the minimum;
    and the elapsed time reads the clock value of that update. *)
Theorem delta_is_clamped t now :
  is_paused t = false ->
  d_ltb MINIMUM_DELTA MINIMUM_DELTA = false ->
  d_ltb MAXIMUM_DELTA MAXIMUM_DELTA = false ->
  d_ltb MAXIMUM_DELTA MINIMUM_DELTA = false ->
  d_ltb (timer_get_delta (timer_update t now)) MINIMUM_DELTA = false /\
  d_ltb MAXIMUM_DELTA (timer_get_delta (timer_update t now)) = false /\
  timer_get_elapsed (timer_update t now) = now.
Proof.
  intros Hp Hmin Hmax Hmm.
  unfold timer_get_delta, timer_get_elapsed, timer_update. rewrite Hp.
  cbn [delta_time current_time].
  destruct (d_ltb (d_sub now (current_time t)) MINIMUM_DELTA) eqn:L1;
    [auto |].
  destruct (d_ltb MAXIMUM_DELTA (d_sub now (current_time t))) eqn:L2; auto.
Qed.

(** X22: the frame counter counts the updates of a running time manager:
    after [n] updates it has grown by [n], as long as it stays within
    [int64_t]. *)
Theorem frames_count_updates t (nows : list double) :
  is_paused t = false ->
  frames t + Z.of_nat (length nows) <= INT64_MAX ->
  timer_get_frames (fold_left timer_update nows t)
  = timer_get_frames t + Z.of_nat (length nows) /\
  is_paused (fold_left timer_update nows t) = false.
Proof.
  unfold timer_get_frames. intros Hp _. revert t Hp.
  induction nows as [| n ns IH]; intros t Hp; cbn [fold_left length].
  - split; [lia | exact Hp].
  - assert (U : frames (timer_update t n) = frames t + 1 /\
                is_paused (timer_update t n) = false).
    { unfold timer_update. rewrite Hp. cbn. auto. }
    destruct U as [F P]. destruct (IH _ P) as [F' P'].
    split; [rewrite F', F; lia | exact P'].
Qed.

(** X23: pausing and resuming twice is pausing and resuming once.  On a
    running time manager, a second [timer_pause] does not move the start
    of the pause and a second [timer_resume] adds nothing: the pause
    duration grows exactly by the time from the first pause to the first
    resume. *)
Theorem pause_resume_idempotent t (a b c d : double) :
  is_paused t = false ->
  timer_resume (timer_resume (timer_pause (timer_pause t a) b) c) d
  = timer_resume (timer_pause t a) c /\
  pause_duration (timer_resume (timer_pause t a) c)
  = d_add (pause_duration t) (d_sub c a) /\
  is_paused (timer_resume (timer_pause t a) c) = false.
Proof.
  intros Hp. unfold timer_resume, timer_pause. rewrite Hp. cbn. auto.
Qed.

(** X24: smoothing restarts after a pause.  Provided [0.0 != 0.0] is
    false, the first update after [timer_init], and the first update after
    a pause during which the time manager was updated at least once, set
    the smooth delta to MINIMUM_DELTA. *)
Theorem smoothing_restarts t (now n1 n2 n3 : double) :
  d_neqb d_zero d_zero = false ->
  (forall t0, timer_init true now = Some t0 ->
              timer_get_smooth_delta (timer_update t0 n1) = MINIMUM_DELTA) /\
  (is_paused t = true ->
   timer_get_smooth_delta
     (timer_update (timer_resume (timer_update t n1) n2) n3) = MINIMUM_DELTA).
Proof.
  intros Hz. unfold timer_get_smooth_delta. split.
  - intros t0 [= <-]. unfold timer_update. cbn. now rewrite Hz.
  - intros Hp. rewrite (timer_update_paused t n1) by exact Hp.
    unfold timer_resume, timer_update. cbn. now rewrite Hz.
Qed.

End Facts.
End TimerFacts.


(** * The further properties at work on concrete inputs *)

(** X1 on the spec's scenario: the platform returned is registered, kept
    by the filter and hit by the probe. *)
Lemma get_best_obstacle_at_is_candidate_witness :
  In Box.platform_B (obstacle (Box.scene [Box.block_A; Box.platform_B])) /\
  ignore_obstacle Box.platform_B Box.L_DEFAULT = false /\
  obstacle_got_collision Box.platform_B 50 0 50 95 = true.
Proof.
  apply (get_best_obstacle_at_is_candidate
           (Box.scene [Box.block_A; Box.platform_B]) 50 0 50 95
           MM_FLOOR Box.L_DEFAULT Box.platform_B).
  reflexivity.
Defined.

(** X2 on three obstacles, the solid block inserted between two
    platforms. *)
Lemma get_best_obstacle_at_solid_iff_witness :
  obstacle_is_solid Box.block_A = true <->
  exists o, In o (obstacle (Box.scene [Box.platform_B; Box.block_A; Box.platform_C]))
            /\ ignore_obstacle o Box.L_DEFAULT = false
            /\ obstacle_got_collision o 50 0 50 125 = true
            /\ obstacle_is_solid o = true.
Proof.
  apply (get_best_obstacle_at_solid_iff
           (Box.scene [Box.platform_B; Box.block_A; Box.platform_C])
           50 0 50 125 MM_FLOOR Box.L_DEFAULT Box.block_A).
  reflexivity.
Defined.

(** X3 on two solid blocks: the one returned has the least top row. *)
Lemma get_best_obstacle_at_tallest_solid_witness :
  sensed_height MM_FLOOR 50 0 50 125 Box.block_A
  <= sensed_height MM_FLOOR 50 0 50 125 Box.block_D.
Proof.
  apply (get_best_obstacle_at_tallest_solid
           (Box.scene [Box.block_D; Box.block_A; Box.platform_B])
           50 0 50 125 MM_FLOOR Box.L_DEFAULT Box.block_A Box.block_D);
    try reflexivity.
  left. reflexivity.
Defined.

(** X4 on two platforms in CEILING mode: the one returned has the least
    bottom row. *)
Lemma get_best_obstacle_at_shortest_one_way_witness :
  obstacle_is_solid Box.platform_B = false /\
  sensed_height MM_CEILING 50 100 50 200 Box.platform_C
  <= sensed_height MM_CEILING 50 100 50 200 Box.platform_B.
Proof.
  apply (get_best_obstacle_at_shortest_one_way
           (Box.scene [Box.platform_B; Box.platform_C])
           50 100 50 200 MM_CEILING Box.L_DEFAULT Box.platform_C Box.platform_B);
    try reflexivity.
  left. reflexivity.
Defined.

(** X5 on the scenario, inserted in both orders. *)
Lemma get_best_obstacle_at_order_independent_witness :
  obstaclemap_get_best_obstacle_at
    (Box.scene [Box.block_A; Box.platform_B]) 50 0 50 125 MM_FLOOR Box.L_DEFAULT =
  obstaclemap_get_best_obstacle_at
    (Box.scene [Box.platform_B; Box.block_A]) 50 0 50 125 MM_FLOOR Box.L_DEFAULT.
Proof.
  apply (get_best_obstacle_at_order_independent
           (Box.scene [Box.block_A; Box.platform_B])
           (Box.scene [Box.platform_B; Box.block_A])).
  - apply perm_swap.
  - intros o1 o2 [<- | [<- | []]] [<- | [<- | []]] _ _ Hs _;
      solve [reflexivity | discriminate Hs].
Defined.

(** X10 on the green platform: seen under the green filter, hence under
    the default one. *)
Lemma default_filter_sees_more_witness :
  obstaclemap_obstacle_exists
    (Box.scene [Box.platform_G]) 50 100 Box.L_GREEN = true /\
  obstaclemap_obstacle_exists
    (Box.scene [Box.platform_G]) 50 100 Box.L_DEFAULT = true.
Proof.
  split; [reflexivity |].
  apply (default_filter_sees_more
           (Box.scene [Box.platform_G]) 50 100 50 100 50 100 MM_FLOOR Box.L_GREEN).
  reflexivity.
Defined.

(** X11 on two platforms with the same top row, in FLOOR mode: the
    comparison is [ha >= hb], the later-inserted one is returned. *)
Lemma tie_follows_comparison_witness :
  obstaclemap_get_best_obstacle_at
    (Box.scene [Box.platform_B; Box.platform_C]) 50 0 50 95 MM_FLOOR Box.L_DEFAULT
  = Some Box.platform_C.
Proof.
  apply (tie_follows_comparison
           (Box.scene [Box.platform_B; Box.platform_C])
           Box.platform_B Box.platform_C 50 0 50 95 MM_FLOOR Box.L_DEFAULT);
    reflexivity.
Defined.

(** X12 on the row of buttons: the point (70,10) is over DEBUG. *)
Lemma button_at_spec_witness :
  MobileMenu.button_at (env := MobileMenu.row_env) (70, 10)
  = Some MobileMenu.BUTTON_DEBUG /\
  MobileMenu.inside_button (MenuEnv := MobileMenu.row_env)
    MobileMenu.BUTTON_DEBUG (70, 10) = true.
Proof.
  split; [reflexivity |].
  apply (MobileMenuFacts.button_at_spec (env := MobileMenu.row_env) (70, 10)).
  reflexivity.
Defined.

(** X13: a tap on SCREENSHOT held for two frames. *)
Lemma tap_triggers_button_witness :
  MobileMenu.state
    (MobileMenu.run MobileMenu.idle_scene
       (MobileMenu.touch_down (40, 10)
        :: [MobileMenu.touch_hold (41, 10); MobileMenu.touch_hold (42, 11)]
        ++ [MobileMenu.touch_up (42, 12)]))
  = MobileMenu.TRIGGERED_SCREENSHOT.
Proof.
  apply (MobileMenuFacts.tap_triggers_button
           MobileMenu.idle_scene MobileMenu.BUTTON_SCREENSHOT
           (MobileMenu.touch_down (40, 10)) (MobileMenu.touch_up (42, 12))
           (MobileMenu.touch_up (0, 0))
           [MobileMenu.touch_hold (41, 10); MobileMenu.touch_hold (42, 11)]).
  - reflexivity.
  - reflexivity.
  - repeat split.
  - repeat constructor.
  - repeat split.
Defined.

(** X14: the finger goes down on BACK, slides to INFO and comes back to go
    up over BACK. *)
Lemma drag_off_cancels_witness :
  MobileMenu.state
    (MobileMenu.run MobileMenu.idle_scene
       [MobileMenu.touch_down (10, 10); MobileMenu.touch_hold (100, 10);
        MobileMenu.touch_hold (10, 10); MobileMenu.touch_up (10, 10)])
  = MobileMenu.WAITING.
Proof.
  apply (MobileMenuFacts.drag_off_cancels
           MobileMenu.idle_scene MobileMenu.BUTTON_BACK
           (MobileMenu.touch_down (10, 10)) (MobileMenu.touch_hold (100, 10))
           [MobileMenu.touch_hold (10, 10); MobileMenu.touch_up (10, 10)]);
    try reflexivity.
  - repeat split.
  - discriminate.
  - repeat constructor.
Defined.

(** X15: INFO is pressed and released off the buttons, then BACK is
    tapped: the action triggered is INFO's. *)
Lemma stale_press_triggers_by_index_witness :
  MobileMenu.button_state
    (MobileMenu.button
       (MobileMenu.run MobileMenu.idle_scene
          [MobileMenu.touch_down (100, 10); MobileMenu.touch_up (200, 100)])
       MobileMenu.BUTTON_INFO) = MobileMenu.PRESSED /\
  MobileMenu.state
    (MobileMenu.run MobileMenu.idle_scene
       [MobileMenu.touch_down (100, 10); MobileMenu.touch_up (200, 100);
        MobileMenu.touch_down (10, 10); MobileMenu.touch_up (10, 10)])
  = MobileMenu.TRIGGERED_INFO.
Proof.
  apply (MobileMenuFacts.stale_press_triggers_by_index
           MobileMenu.idle_scene MobileMenu.BUTTON_INFO MobileMenu.BUTTON_BACK
           (MobileMenu.touch_down (100, 10)) (MobileMenu.touch_up (200, 100))
           (MobileMenu.touch_down (10, 10)) (MobileMenu.touch_up (10, 10)));
    try reflexivity; try discriminate; repeat split.
Defined.

(** X16: a press while the menu is still appearing is not seen. *)
Lemma input_ignored_unless_waiting_witness :
  MobileMenu.button_state
    (MobileMenu.button
       (MobileMenu.mobilemenu_update
          (MobileMenu.scene_in MobileMenu.APPEARING)
          (MobileMenu.touch_down (10, 10)))
       MobileMenu.BUTTON_BACK)
  = MobileMenu.UNPRESSED.
Proof.
  apply (MobileMenuFacts.input_ignored_unless_waiting
           (MobileMenu.scene_in MobileMenu.APPEARING)
           (MobileMenu.touch_down (10, 10)) MobileMenu.BUTTON_BACK).
  discriminate.
Defined.

(** X17: a tap and the BACK key on a disappearing menu. *)
Lemma disappearing_is_final_witness :
  MobileMenu.state
    (MobileMenu.run (MobileMenu.scene_in MobileMenu.DISAPPEARING)
       [MobileMenu.touch_down (10, 10); MobileMenu.touch_up (10, 10);
        MobileMenu.back_key])
  = MobileMenu.DISAPPEARING.
Proof.
  apply (MobileMenuFacts.disappearing_is_final
           (MobileMenu.scene_in MobileMenu.DISAPPEARING)
           [MobileMenu.touch_down (10, 10); MobileMenu.touch_up (10, 10);
            MobileMenu.back_key]).
  reflexivity.
Defined.

(** X18: the frame in which the finger goes down on DEBUG. *)
Lemma waiting_update_settles_buttons_witness :
  MobileMenu.button_state
    (MobileMenu.button
       (MobileMenu.mobilemenu_update MobileMenu.idle_scene
          (MobileMenu.touch_down (70, 10)))
       MobileMenu.BUTTON_DEBUG) <> MobileMenu.TRIGGERED.
Proof.
  apply (MobileMenuFacts.waiting_update_settles_buttons
           MobileMenu.idle_scene (MobileMenu.touch_down (70, 10))
           MobileMenu.BUTTON_DEBUG).
  reflexivity.
Defined.

(** X19: the BACK key on the idle menu. *)
Lemma back_key_closes_menu_witness :
  MobileMenu.state
    (MobileMenu.run MobileMenu.idle_scene
       [MobileMenu.back_key; MobileMenu.touch_hold (0, 0)])
  = MobileMenu.DISAPPEARING.
Proof.
  apply (MobileMenuFacts.back_key_closes_menu
           MobileMenu.idle_scene MobileMenu.back_key
           (MobileMenu.touch_hold (0, 0)));
    reflexivity.
Defined.

(** X20: three updates of a paused time manager. *)
Lemma paused_updates_freeze_witness :
  Timer.timer_get_frames
    (fold_left (Timer.timer_update (dbl := Timer.rational_double)) [8%Q; 9%Q; 10%Q] Timer.paused_timer)
  = Timer.timer_get_frames Timer.paused_timer.
Proof.
  apply (TimerFacts.paused_updates_freeze
           Timer.paused_timer [8%Q; 9%Q; 10%Q]).
  reflexivity.
Defined.

(** X21: an update one tenth of a second late: the delta is cut down to
    MAXIMUM_DELTA. *)
Lemma delta_is_clamped_witness :
  Timer.d_ltb Timer.MAXIMUM_DELTA
    (Timer.timer_get_delta (Timer.timer_update Timer.fresh_timer (1 # 10)%Q))
  = false.
Proof.
  apply (TimerFacts.delta_is_clamped Timer.fresh_timer (1 # 10)%Q);
    reflexivity.
Defined.

(** X22: three updates of a running time manager. *)
Lemma frames_count_updates_witness :
  Timer.timer_get_frames
    (fold_left (Timer.timer_update (dbl := Timer.rational_double)) [6%Q; 7%Q; 8%Q] Timer.fresh_timer)
  = Timer.timer_get_frames Timer.fresh_timer + 3.
Proof.
  apply (TimerFacts.frames_count_updates Timer.fresh_timer [6%Q; 7%Q; 8%Q]).
  - reflexivity.
  - unfold Timer.INT64_MAX. simpl. lia.
Defined.

(** X23: pause at 7 and 8, resume at 9 and 10. *)
Lemma pause_resume_idempotent_witness :
  Timer.timer_resume
    (Timer.timer_resume
       (Timer.timer_pause (Timer.timer_pause Timer.fresh_timer 7%Q) 8%Q) 9%Q)
    10%Q
  = Timer.timer_resume (Timer.timer_pause Timer.fresh_timer 7%Q) 9%Q.
Proof.
  apply (TimerFacts.pause_resume_idempotent Timer.fresh_timer 7%Q 8%Q 9%Q 10%Q).
  reflexivity.
Defined.

(** X24: the paused time manager updated at 8, resumed at 9, updated at
    10. *)
Lemma smoothing_restarts_witness :
  Timer.timer_get_smooth_delta
    (Timer.timer_update
       (Timer.timer_resume (Timer.timer_update Timer.paused_timer 8%Q) 9%Q)
       10%Q)
  = Timer.MINIMUM_DELTA.
Proof.
  apply (TimerFacts.smoothing_restarts Timer.paused_timer 5%Q 8%Q 9%Q 10%Q);
    reflexivity.
Defined.
